(** * tavily-search-server: the result formatter, the code-fragment extractor
      and the search tool handler of [src/index.ts]

    Definitions come first, in this order.

    - [JsString]: the string primitives the source calls ([trim],
      [toLowerCase], [includes], [join], template literals, truthiness).
    - [Regex]: a backtracking matcher for the constructs the four regular
      expression literals of [extractCodeBlocks] are written in, and the
      iteration of the [g] flag.
    - [extractCodeBlocks], with its four patterns.
    - [Tavily], [Mcp]: the data of the search provider and of the protocol.
    - The monad [M] of the two [async] functions: it threads the calls made
      to the search provider and the error stream, and carries thrown values.
    - [processSearchResults] and the [CallToolRequestSchema] handler
      [callTool].
    - The specification side: the four categories and their policy table,
      case-insensitive containment, the shape of a declaration fragment,
      the language of a pattern, the lines of a report.
    - The [ListTools] and [ListResources] handlers.

    The properties follow: strings, the handler and the formatter, failure
    classification, the matcher, the extractor; then the hook and markup
    families, fenced and inline spans, the report block by block, and the
    handler case by case.

    Strings are sequences of code units; the model covers the code units
    U+0000 to U+00FF, one [ascii] each. *)

From Stdlib Require Import Bool Arith Lia List.
From Stdlib Require Import Ascii String DecimalString.
Import ListNotations.

#[local] Open Scope list_scope.
#[local] Open Scope string_scope.
#[local] Open Scope nat_scope.

(* ===================================================================== *)
(** ** String primitives of the host language *)
(* ===================================================================== *)

Module JsString.

(** The line feed, written [\n] in the source. *)
Definition LF : ascii := ascii_of_nat 10.
Definition nl : string := String LF EmptyString.

(** Characters named by their code where the literal is awkward. *)
Definition backtick : ascii := ascii_of_nat 96.
Definition dquote : ascii := ascii_of_nat 34.
Definition squote : ascii := ascii_of_nat 39.

Definition codeUnit (a : ascii) : nat := nat_of_ascii a.

Definition in_range (lo hi : nat) (a : ascii) : bool :=
  (lo <=? codeUnit a) && (codeUnit a <=? hi).

(** White space and line terminators below U+0100: TAB, LF, VT, FF, CR,
    SPACE and NO-BREAK SPACE.  This is the class [\s] and what [trim]
    strips. *)
Definition is_space (a : ascii) : bool :=
  in_range 9 13 a || (codeUnit a =? 32) || (codeUnit a =? 160).

(** The class [\w] (no [i] or [u] flag): [A-Za-z0-9_]. *)
Definition is_word (a : ascii) : bool :=
  in_range 97 122 a || in_range 65 90 a || in_range 48 57 a || (codeUnit a =? 95).

(** [String.prototype.trim]. *)
Fixpoint trimStart (s : string) : string :=
  match s with
  | EmptyString => EmptyString
  | String a s' => if is_space a then trimStart s' else s
  end.

Fixpoint trimEnd (s : string) : string :=
  match s with
  | EmptyString => EmptyString
  | String a s' =>
      match trimEnd s' with
      | EmptyString => if is_space a then EmptyString else String a EmptyString
      | t => String a t
      end
  end.

Definition trim (s : string) : string := trimEnd (trimStart s).

(** [String.prototype.toLowerCase] on the code units below U+0100: the
    letters A-Z, and the Latin-1 capitals U+00C0-U+00DE except the
    multiplication sign U+00D7, move up by 32. *)
Definition toLowerChar (a : ascii) : ascii :=
  if in_range 65 90 a || (in_range 192 222 a && negb (codeUnit a =? 215))
  then ascii_of_nat (codeUnit a + 32)
  else a.

Fixpoint toLowerCase (s : string) : string :=
  match s with
  | EmptyString => EmptyString
  | String a s' => String (toLowerChar a) (toLowerCase s')
  end.

(** [s.startsWith(p)], and the rest of [s] after [p]. *)
Fixpoint stripPrefix (p s : string) : option string :=
  match p with
  | EmptyString => Some s
  | String a p' =>
      match s with
      | EmptyString => None
      | String b s' => if Ascii.eqb a b then stripPrefix p' s' else None
      end
  end.

Definition startsWith (s p : string) : bool :=
  match stripPrefix p s with Some _ => true | None => false end.

(** [s.includes(p)]. *)
Fixpoint includes (s p : string) : bool :=
  startsWith s p ||
  match s with
  | EmptyString => false
  | String _ s' => includes s' p
  end.

(** [Array.prototype.join]. *)
Fixpoint join (sep : string) (l : list string) : string :=
  match l with
  | [] => EmptyString
  | [x] => x
  | x :: l' => x ++ sep ++ join sep l'
  end.

(** A number inside a template literal: its decimal digits. *)
Definition ofNat (n : nat) : string := NilEmpty.string_of_uint (Nat.to_uint n).

(** Truthiness of a string: a non-empty one. *)
Definition nonEmpty (s : string) : bool :=
  match s with EmptyString => false | _ => true end.

(** Truthiness of an optional string field: present and non-empty. *)
Definition truthy (o : option string) : bool :=
  match o with Some s => nonEmpty s | None => false end.

(** [a || b] on optional strings. *)
Definition orElse (a b : option string) : option string :=
  if truthy a then a else b.

End JsString.
Import JsString.

(* ===================================================================== *)
(** ** Regular expressions *)
(* ===================================================================== *)

Module Regex.

(** The constructs the literals of the source use.  Every quantified atom of
    the source is a character class, so [Star] takes a class; [x+] is
    [x] followed by [x*]. *)
Inductive regex : Type :=
| Lit (l : string)                         (* literal characters *)
| Cls (p : ascii -> bool)                  (* one character of a class *)
| Star (greedy : bool) (p : ascii -> bool) (* [p*] or [p*?] *)
| Opt (r : regex)                          (* [(?:r)?] *)
| Seq (r1 r2 : regex)
| Alt (r1 r2 : regex)                      (* [r1|r2], left first *)
| Cap (n : nat) (r : regex).               (* capture group number [n] *)

Definition Plus (p : ascii -> bool) : regex := Seq (Cls p) (Star true p).

(** The capture groups of a match; an unset group is [undefined]. *)
Definition Captures : Type := nat -> option string.

Definition noCaptures : Captures := fun _ => None.

Definition setCapture (n : nat) (v : string) (c : Captures) : Captures :=
  fun m => if m =? n then Some v else c m.

(** What was consumed between the input [s] and its suffix [rest]. *)
Definition consumed (s rest : string) : nat := String.length s - String.length rest.

Definition taken (s rest : string) : string := substring 0 (consumed s rest) s.

Section Matcher.
Context {A : Type}.

(** [p*]: the longest run first, giving characters back one at a time. *)
Fixpoint starGreedy (p : ascii -> bool) (s : string)
         (k : string -> option A) : option A :=
  match s with
  | String a s' =>
      if p a
      then match starGreedy p s' k with
           | Some x => Some x
           | None => k s
           end
      else k s
  | EmptyString => k s
  end.

(** [p*?]: the shortest run first, taking one more character at a time. *)
Fixpoint starLazy (p : ascii -> bool) (s : string)
         (k : string -> option A) : option A :=
  match k s with
  | Some x => Some x
  | None =>
      match s with
      | String a s' => if p a then starLazy p s' k else None
      | EmptyString => None
      end
  end.

(** The backtracking matcher: [rmatch r s c k] matches [r] at the start of
    [s] and hands the rest of the input and the captures to the
    continuation [k]; when [k] fails, the next way of matching [r] is
    tried. *)
Fixpoint rmatch (r : regex) (s : string) (c : Captures)
         (k : string -> Captures -> option A) : option A :=
  match r with
  | Lit l =>
      match stripPrefix l s with
      | Some s' => k s' c
      | None => None
      end
  | Cls p =>
      match s with
      | String a s' => if p a then k s' c else None
      | EmptyString => None
      end
  | Star true p => starGreedy p s (fun s' => k s' c)
  | Star false p => starLazy p s (fun s' => k s' c)
  | Opt r1 =>
      match rmatch r1 s c k with
      | Some x => Some x
      | None => k s c
      end
  | Seq r1 r2 => rmatch r1 s c (fun s' c' => rmatch r2 s' c' k)
  | Alt r1 r2 =>
      match rmatch r1 s c k with
      | Some x => Some x
      | None => rmatch r2 s c k
      end
  | Cap n r1 => rmatch r1 s c (fun s' c' => k s' (setCapture n (taken s s') c'))
  end.
End Matcher.

(** One match: the matched text ([match[0]]) and the capture groups. *)
Record Match : Type := mkMatch { matched : string; groups : Captures }.

(** A match of [r] that starts at the first character of [s]. *)
Definition matchAt (r : regex) (s : string) : option Match :=
  rmatch r s noCaptures (fun rest c => Some (mkMatch (taken s rest) c)).

(** The iteration of the [g] flag over the rest [s] of the input: the
    matches from left to right, each search resuming where the previous
    match ended ([lastIndex]).  [skip] counts the characters of [s] that
    still belong to the previous match.  After an empty match the search
    resumes one character further. *)
Fixpoint matchesFrom (r : regex) (s : string) (skip : nat) : list Match :=
  match s with
  | EmptyString =>
      match skip, matchAt r s with
      | 0, Some m => [m]
      | _, _ => []
      end
  | String _ s' =>
      match skip with
      | S n => matchesFrom r s' n
      | 0 =>
          match matchAt r s with
          | Some m => m :: matchesFrom r s' (String.length (matched m) - 1)
          | None => matchesFrom r s' 0
          end
      end
  end.

(** [while ((match = r.exec(content)) !== null)]: the matches the loop
    visits, for a fresh [r] with the [g] flag. *)
Definition execAll (r : regex) (content : string) : list Match :=
  matchesFrom r content 0.

(** [content.match(r)] for [r] with the [g] flag: [null] when nothing
    matches, the matched texts otherwise. *)
Definition strMatch (content : string) (r : regex) : option (list string) :=
  match matchesFrom r content 0 with
  | [] => None
  | ms => Some (map matched ms)
  end.

End Regex.
Import Regex.

(* ===================================================================== *)
(** ** extractCodeBlocks *)
(* ===================================================================== *)

(** The classes [[\s\S]] and [[^`]]. *)
Definition anyChar : ascii -> bool := fun _ => true.

Definition notBacktick : ascii -> bool := fun a => negb (Ascii.eqb a backtick).

(** The class of the opening tag of the third pattern: [\w], [\s], [=], the
    double quote and the single quote. *)
Definition tagChar : ascii -> bool :=
  fun a => is_word a || is_space a || Ascii.eqb a "=" || Ascii.eqb a dquote
           || Ascii.eqb a squote.

Definition fence : string := String backtick (String backtick (String backtick EmptyString)).
Definition tick : string := String backtick EmptyString.

(** [/```(?:\w+\n)?([\s\S]*?)```|`([^`]+)`/g] *)
Definition codeBlockRegex : regex :=
  Alt (Seq (Lit fence)
        (Seq (Opt (Seq (Plus is_word) (Lit nl)))
          (Seq (Cap 1 (Star false anyChar))
               (Lit fence))))
      (Seq (Lit tick)
        (Seq (Cap 2 (Plus notBacktick))
             (Lit tick))).

(** [(?:;|\})] *)
Definition terminator : regex := Alt (Lit ";") (Lit "}").

(** [/(?:const|let|var|function|class|import|export)[\s\S]*?(?:;|\})/g] *)
Definition declarationPattern : regex :=
  Seq (Alt (Lit "const") (Alt (Lit "let") (Alt (Lit "var") (Alt (Lit "function")
        (Alt (Lit "class") (Alt (Lit "import") (Lit "export")))))))
      (Seq (Star false anyChar) terminator).

(** [/(?:useEffect|useState|useCallback|useMemo)\([\s\S]*?\)(?:;|\})/g] *)
Definition hookPattern : regex :=
  Seq (Alt (Lit "useEffect") (Alt (Lit "useState") (Alt (Lit "useCallback")
        (Lit "useMemo"))))
      (Seq (Lit "(") (Seq (Star false anyChar) (Seq (Lit ")") terminator))).

(** [/<C+>[\s\S]*?<\/[\w]+>/g], where [C] is the class [tagChar]. *)
Definition markupPattern : regex :=
  Seq (Lit "<") (Seq (Plus tagChar) (Seq (Lit ">")
    (Seq (Star false anyChar)
      (Seq (Lit "</") (Seq (Plus is_word) (Lit ">")))))).

Definition codeLikePatterns : list regex :=
  [declarationPattern; hookPattern; markupPattern].

(** The body of the [while] loop: [match[1] || match[2]], kept when it and
    its trimmed text are non-empty. *)
Definition pushBlock (blocks : list string) (m : Match) : list string :=
  match orElse (groups m 1) (groups m 2) with
  | Some block =>
      if nonEmpty block && nonEmpty (trim block)
      then blocks ++ [trim block]
      else blocks
  | None => blocks
  end.

(** The body of the [for] loop over [codeLikePatterns]. *)
Definition pushMatches (content : string) (blocks : list string) (pattern : regex)
  : list string :=
  match strMatch content pattern with
  | Some matches => blocks ++ matches
  | None => blocks
  end.

(** The first loop of [extractCodeBlocks]: the fenced and inline spans. *)
Definition fencedBlocks (content : string) : list string :=
  fold_left pushBlock (execAll codeBlockRegex content) [].

(** The second loop, started from an array [blocks]. *)
Definition codeLikeBlocks (content : string) (blocks : list string) : list string :=
  fold_left (pushMatches content) codeLikePatterns blocks.

Definition extractCodeBlocks (content : string) : list string :=
  let blocks := fencedBlocks content in
  if List.length blocks =? 0
  then codeLikeBlocks content blocks
  else blocks.

(* ===================================================================== *)
(** ** Data of the search provider and of the protocol *)
(* ===================================================================== *)

Module Tavily.

(** One hit.  [content] and [rawContent] are tested for truthiness by the
    formatter, so they may be absent. *)
Record SearchResult : Type := {
  url : string;
  title : string;
  content : option string;
  rawContent : option string
}.

(** The value the provider resolves to.  [results] is [None] when the
    field is missing or is not an array. *)
Record SearchResponse : Type := {
  answer : option string;
  results : option (list SearchResult)
}.

Inductive SearchDepth : Type := advanced | basic.

(** The options object of [tvly.search]; [maxResults] is [None] while the
    key is not set, as in [baseOptions]. *)
Record SearchOptions : Type := {
  searchDepth : SearchDepth;
  includeAnswer : bool;
  includeRawContent : bool;
  maxResults : option nat
}.

(** [{...o, maxResults: n}] and [{...o, searchDepth: d}]. *)
Definition withMaxResults (n : nat) (o : SearchOptions) : SearchOptions :=
  {| searchDepth := searchDepth o; includeAnswer := includeAnswer o;
     includeRawContent := includeRawContent o; maxResults := Some n |}.

Definition withSearchDepth (d : SearchDepth) (o : SearchOptions) : SearchOptions :=
  {| searchDepth := d; includeAnswer := includeAnswer o;
     includeRawContent := includeRawContent o; maxResults := maxResults o |}.

End Tavily.

Module Mcp.

Record TextContent : Type := { type : string; text : string }.

Record CallToolResult : Type := { content : list TextContent }.

Definition textContent (t : string) : TextContent := {| type := "text"; text := t |}.

End Mcp.

(* ===================================================================== *)
(** ** Effects: provider calls, the error stream, thrown values *)
(* ===================================================================== *)

(** A value the provider call is rejected with ([catch (error: any)]), seen
    through what the [catch] block does with it: it reads [error.message],
    falls back on [String(error)], prints the result and calls
    [toLowerCase] on it. *)
Inductive Thrown : Type :=
| Nullish
    (* [null] or [undefined]: reading [error.message] throws *)
| ErrorObject (name message : string)
    (* an [Error] with its name and its message, both strings *)
| MessageNotString (printed : string)
    (* a value whose [message] is truthy and is not a string (a number,
       [true], an object): it has no [toLowerCase]; [printed] is how
       [console.error] shows it *)
| ThrownValue (shown : string).
    (* any other value, whose [message] is falsy (a thrown string, an
       object without a message), with its [String(...)] *)

(** The TypeErrors the engine raises in the [catch] block. *)
Inductive TypeErrorCause : Type :=
| MessageOfNullish          (* [error.message] on [null] or [undefined] *)
| ToLowerCaseNotAFunction.  (* [errorMessage.toLowerCase()] on a value that is not a string *)

(** What the handler itself can be rejected with. *)
Inductive Rejection : Type :=
| TypeError (cause : TypeErrorCause).

(** The value of [error.message || String(error)]: a string, or a truthy
    value that is not one. *)
Inductive ErrorMessage : Type :=
| MessageString (s : string)
| MessageOther (printed : string).

(** How [console.error] prints it. *)
Definition printedMessage (m : ErrorMessage) : string :=
  match m with
  | MessageString s => s
  | MessageOther printed => printed
  end.

(** [Error.prototype.toString]. *)
Definition errorToString (name message : string) : string :=
  if negb (nonEmpty name) then message
  else if negb (nonEmpty message) then name
  else name ++ ": " ++ message.

(** [error.message || String(error)], or the TypeError of reading
    [message] from [null] or [undefined]. *)
Definition errorMessageOf (error : Thrown) : TypeErrorCause + ErrorMessage :=
  match error with
  | Nullish => inl MessageOfNullish
  | ErrorObject name message =>
      inr (MessageString
             (if nonEmpty message then message else errorToString name message))
  | MessageNotString printed => inr (MessageOther printed)
  | ThrownValue shown => inr (MessageString shown)
  end.

(** What a request can change outside itself: the calls made to the search
    provider and the lines written to the error stream, oldest first. *)
Record World : Type := {
  searchCalls : list (string * Tavily.SearchOptions);
  stderr : list string
}.

Definition emptyWorld : World := {| searchCalls := []; stderr := [] |}.

(** A computation that may throw a value of type [E]: from a world to a
    thrown value or a result, and the world after. *)
Definition Comp (E A : Type) : Type := World -> (E + A) * World.

(** Inside the [try] block and in the formatter, what is thrown is what the
    provider call was rejected with. *)
Definition M (A : Type) : Type := Comp Thrown A.

Definition ret {E A} (a : A) : Comp E A := fun w => (inr a, w).

Definition throw {E A} (e : E) : Comp E A := fun w => (inl e, w).

Definition bind {E A B} (m : Comp E A) (f : A -> Comp E B) : Comp E B :=
  fun w =>
    match m w with
    | (inr a, w') => f a w'
    | (inl e, w') => (inl e, w')
    end.

(** [try { body } catch (error) { handler }]: what the handler throws is
    not caught. *)
Definition tryCatch {E F A} (body : Comp E A) (handler : E -> Comp F A) : Comp F A :=
  fun w =>
    match body w with
    | (inr a, w') => (inr a, w')
    | (inl e, w') => handler e w'
    end.

Notation "x <- m ;; k" := (bind m (fun x => k))
  (at level 61, m at next level, right associativity).
Notation "m ;;; k" := (bind m (fun _ => k))
  (at level 61, right associativity).

(** [console.error(label, text)] *)
Definition consoleError {E} (label text : string) : Comp E unit :=
  fun w => (inr tt, {| searchCalls := searchCalls w;
                       stderr := stderr w ++ [label ++ " " ++ text] |}).

(* ===================================================================== *)
(** ** processSearchResults *)
(* ===================================================================== *)

Import Tavily Mcp.

(** [responseText.push(line)] *)
Definition push (line : string) (responseText : list string) : list string :=
  responseText ++ [line].

(** [l.forEach((x, index) => ...)] over a state [S], [index] counting from
    [start]. *)
Fixpoint forEachFrom {X S : Type} (start : nat) (f : X -> nat -> S -> S)
         (l : list X) (s : S) : S :=
  match l with
  | [] => s
  | x :: l' => forEachFrom (Datatypes.S start) f l' (f x start s)
  end.

Definition forEach {X S : Type} (f : X -> nat -> S -> S) (l : list X) (s : S) : S :=
  forEachFrom 0 f l s.

(** The header and the optional answer of a category. *)
Definition pushHeading (header overview : string) (results : SearchResponse)
           (responseText : list string) : list string :=
  let responseText := push (header ++ nl) responseText in
  match answer results with
  | Some a =>
      if nonEmpty a
      then push (a ++ nl) (push overview responseText)
      else responseText
  | None => responseText
  end.

(** [if (result.content) { push(label); push(result.content) }] *)
Definition pushContent (label : string) (result : SearchResult)
           (responseText : list string) : list string :=
  match Tavily.content result with
  | Some c =>
      if nonEmpty c
      then push c (push (nl ++ label) responseText)
      else responseText
  | None => responseText
  end.

(** The callback of [forEach] in the [code] case. *)
Definition pushCodeExample (result : SearchResult) (index : nat)
           (responseText : list string) : list string :=
  let responseText := push ("Example " ++ ofNat (index + 1) ++ ":") responseText in
  let responseText := push ("Source: " ++ url result) responseText in
  let responseText :=
    match rawContent result with
    | Some raw =>
        if nonEmpty raw
        then
          let codeBlocks := extractCodeBlocks raw in
          if 0 <? List.length codeBlocks
          then fold_left (fun responseText block =>
                            push (trim block) (push (nl ++ "Code:") responseText))
                         codeBlocks responseText
          else responseText
        else responseText
    | None => responseText
    end in
  let responseText := pushContent "Description:" result responseText in
  push EmptyString responseText.

(** The callback in the [docs] and [learn] cases, which differ by [label]. *)
Definition pushTitled (label : string) (result : SearchResult) (index : nat)
           (responseText : list string) : list string :=
  let responseText := push (title result) responseText in
  let responseText := push ("Source: " ++ url result) responseText in
  let responseText := pushContent label result responseText in
  push EmptyString responseText.

(** The callback in the [debug] case. *)
Definition pushSolution (result : SearchResult) (index : nat)
           (responseText : list string) : list string :=
  let responseText := push ("Solution " ++ ofNat (index + 1) ++ ":") responseText in
  let responseText := push ("Context: " ++ title result) responseText in
  let responseText := push ("Source: " ++ url result) responseText in
  let responseText := pushContent "Fix:" result responseText in
  push EmptyString responseText.

(** [if (results.results && Array.isArray(results.results)) forEach ...] *)
Definition pushResults (f : SearchResult -> nat -> list string -> list string)
           (results : SearchResponse) (responseText : list string) : list string :=
  match Tavily.results results with
  | Some l => forEach f l responseText
  | None => responseText
  end.

Definition noResultsText : string :=
  "No results were found for your query. Please try a different search term.".

Definition nothingRelevantText : string :=
  "The search was completed but no relevant information was found. Please try refining your query.".

(** The [switch (type)] of the formatter, on the array [responseText]. *)
Definition formatLines (results : SearchResponse) (type : string)
           (responseText : list string) : list string :=
  if String.eqb type "code" then
    pushResults pushCodeExample results
      (pushHeading "Code Examples & Implementation:" "Overview:" results responseText)
  else if String.eqb type "docs" then
    pushResults (pushTitled "Details:") results
      (pushHeading "Technical Documentation:" "Quick Reference:" results responseText)
  else if String.eqb type "debug" then
    pushResults pushSolution results
      (pushHeading "Debugging Solutions:" "Quick Solution:" results responseText)
  else if String.eqb type "learn" then
    pushResults (pushTitled "Key Points:") results
      (pushHeading "Learning Resources:" "Overview:" results responseText)
  else responseText.

(** [async function processSearchResults(results, type)]; [results] is
    [None] for a falsy value. *)
Definition processSearchResults (results : option SearchResponse) (type : string)
  : M TextContent :=
  match results with
  | None => ret (textContent noResultsText)
  | Some results =>
      let responseText := formatLines results type [] in
      if List.length responseText =? 0
      then ret (textContent nothingRelevantText)
      else ret (textContent (join nl responseText))
  end.

(* ===================================================================== *)
(** ** The CallToolRequestSchema handler *)
(* ===================================================================== *)

(** [request.params.arguments], when it is an object: a key is [None] when
    the object does not have it. *)
Module Args.
Record t : Type := { query : option string; type : option string }.
End Args.

Definition baseOptions : SearchOptions :=
  {| searchDepth := advanced; includeAnswer := true; includeRawContent := true;
     maxResults := None |}.

Definition unknownToolText (name : string) : string :=
  "Error: Unknown tool '" ++ name ++ "'. Only 'search' is supported.".

Definition invalidArgumentsText : string :=
  "Error: Invalid arguments. A 'query' parameter is required.".

Definition authenticationErrorText : string :=
  "Authentication error occurred. Please check the API key configuration.".

Definition rateLimitText : string :=
  "Rate limit exceeded. Please wait a moment before trying again.".

Definition unexpectedErrorText (errorMessage : string) : string :=
  "An unexpected error occurred during the search. Please try again later. Error: "
  ++ errorMessage.

(** [args.type || "code"] *)
Definition typeOf (type : option string) : string :=
  match orElse type (Some "code") with
  | Some t => t
  | None => "code"
  end.

Definition respond {E} (t : string) : Comp E CallToolResult :=
  ret {| content := [textContent t] |}.

Section Handler.

(** The search provider: what [tvly.search(query, options)] settles to, a
    rejection or a value ([None] for a falsy one). *)
Variable provider : string -> SearchOptions -> Thrown + option SearchResponse.

(** [await tvly.search(query, options)] *)
Definition tvlySearch (query : string) (options : SearchOptions)
  : M (option SearchResponse) :=
  fun w => (provider query options,
            {| searchCalls := searchCalls w ++ [(query, options)];
               stderr := stderr w |}).

(** The [switch (type)] of the handler; [results] stays [undefined] when
    no case matches. *)
Definition searchByType (query type : string) : M (option SearchResponse) :=
  if String.eqb type "code" then
    tvlySearch query (withMaxResults 3 baseOptions)
  else if String.eqb type "docs" then
    tvlySearch query (withSearchDepth basic (withMaxResults 2 baseOptions))
  else if String.eqb type "debug" then
    tvlySearch query (withMaxResults 5 baseOptions)
  else if String.eqb type "learn" then
    tvlySearch query (withSearchDepth basic (withMaxResults 3 baseOptions))
  else ret None.

(** The [catch] block.  Reading [error.message] comes first and may throw;
    [console.error] comes next; [toLowerCase] comes last and throws when the
    message is not a string.  What is thrown here rejects the handler. *)
Definition onError (error : Thrown) : Comp Rejection CallToolResult :=
  match errorMessageOf error with
  | inl cause => throw (TypeError cause)
  | inr errorMessage =>
      consoleError "Search error:" (printedMessage errorMessage) ;;;
      match errorMessage with
      | MessageOther _ => throw (TypeError ToLowerCaseNotAFunction)
      | MessageString errorMessage =>
          if includes (toLowerCase errorMessage) "api_key" then
            respond authenticationErrorText
          else if includes (toLowerCase errorMessage) "rate limit" then
            respond rateLimitText
          else
            respond (unexpectedErrorText errorMessage)
      end
  end.

(** [server.setRequestHandler(CallToolRequestSchema, async (request) => ...)]
    on [request.params = { name, arguments: args }]; [args] is [None] when
    it is missing or not an object.  The handler resolves with a result or
    is rejected with what its [catch] block throws. *)
Definition callTool (name : string) (args : option Args.t)
  : Comp Rejection CallToolResult :=
  if negb (String.eqb name "search") then
    respond (unknownToolText name)
  else
    match args with
    | None => respond invalidArgumentsText
    | Some args =>
        match Args.query args with
        | None => respond invalidArgumentsText
        | Some query =>
            tryCatch
              (let type := typeOf (Args.type args) in
               results <- searchByType query type ;;
               processedResults <- processSearchResults results type ;;
               ret {| content := [processedResults] |})
              onError
        end
    end.

End Handler.

(* ===================================================================== *)
(** ** The specification side: categories and the policy table *)
(* ===================================================================== *)

Inductive SearchCategory : Type := code | docs | debug | learn.

Definition tag (c : SearchCategory) : string :=
  match c with
  | code => "code"
  | docs => "docs"
  | debug => "debug"
  | learn => "learn"
  end.

(** The table of the specification, row by row. *)
Definition policyFor (c : SearchCategory) : SearchOptions :=
  match c with
  | code  => {| maxResults := Some 3; searchDepth := advanced;
                includeAnswer := true; includeRawContent := true |}
  | docs  => {| maxResults := Some 2; searchDepth := basic;
                includeAnswer := true; includeRawContent := true |}
  | debug => {| maxResults := Some 5; searchDepth := advanced;
                includeAnswer := true; includeRawContent := true |}
  | learn => {| maxResults := Some 3; searchDepth := basic;
                includeAnswer := true; includeRawContent := true |}
  end.

(** A string is a recognized category when it is one of the four tags. *)
Definition recognized (type : string) : Prop := exists c, type = tag c.

Definition header (c : SearchCategory) : string :=
  match c with
  | code => "Code Examples & Implementation:"
  | docs => "Technical Documentation:"
  | debug => "Debugging Solutions:"
  | learn => "Learning Resources:"
  end.

(* ===================================================================== *)
(** ** The specification side: arguments and report sections *)
(* ===================================================================== *)

(** The arguments of a call do not include a query: there is no arguments
    object, or it has no [query] key. *)
Definition lacksQuery (args : option Args.t) : Prop :=
  match args with
  | None => True
  | Some a => Args.query a = None
  end.

(** The lines of the Description section of a result. *)
Definition descriptionLines (result : SearchResult) : list string :=
  match Tavily.content result with
  | Some c => if nonEmpty c then [nl ++ "Description:"; c] else []
  | None => []
  end.

(* ===================================================================== *)
(** ** The specification side: case-insensitive containment *)
(* ===================================================================== *)






(* ===================================================================== *)
(** ** The specification side: pattern families and fragments *)
(* ===================================================================== *)

(** The least number of characters a match of [r] consumes. *)
Fixpoint minLen (r : regex) : nat :=
  match r with
  | Lit l => String.length l
  | Cls _ => 1
  | Star _ _ => 0
  | Opt _ => 0
  | Seq r1 r2 => minLen r1 + minLen r2
  | Alt r1 r2 => Nat.min (minLen r1) (minLen r2)
  | Cap _ r1 => minLen r1
  end.

(** The fragments of one pattern family: its matches over the whole text,
    in order of appearance. *)
Definition familyBlocks (pattern : regex) (content : string) : list string :=
  map matched (matchesFrom pattern content 0).

(** The statement scan of the specification: the three families, one after
    the other. *)
Definition statementScan (content : string) : list string :=
  (familyBlocks declarationPattern content
   ++ familyBlocks hookPattern content
   ++ familyBlocks markupPattern content)%list.

(** The text holds no backtick, the one character both delimiters are made
    of. *)
Fixpoint noBacktick (s : string) : bool :=
  match s with
  | EmptyString => true
  | String a s' => notBacktick a && noBacktick s'
  end.

Definition keywords : list string :=
  ["const"; "let"; "var"; "function"; "class"; "import"; "export"].

Definition isTerminator (a : ascii) : bool := Ascii.eqb a ";" || Ascii.eqb a "}".

(** The rest of [s] after its first terminator. *)
Fixpoint afterTerminator (s : string) : option string :=
  match s with
  | EmptyString => None
  | String a s' => if isTerminator a then Some s' else afterTerminator s'
  end.

(** What the specification asks of a fragment of the family: a keyword,
    then a body free of terminators, then one terminator. *)
Definition declarationShaped (f : string) : Prop :=
  exists kw body t,
    In kw keywords /\ f = kw ++ body ++ String t EmptyString
    /\ isTerminator t = true /\ afterTerminator body = None.

(** The match of the declaration pattern at the start of [s], keyword by
    keyword. *)
Fixpoint declarationAt (kws : list string) (s : string) : option string :=
  match kws with
  | [] => None
  | kw :: kws' =>
      match stripPrefix kw s with
      | Some s1 =>
          match afterTerminator s1 with
          | Some rest => Some (taken s rest)
          | None => declarationAt kws' s
          end
      | None => declarationAt kws' s
      end
  end.

(** The statement of the specification's example. *)
Definition statement : string := "const a = 1;".

(** [f] occurs in [content] at the beginning of a line, after white space
    at most. *)
Fixpoint occursAtLineStart (atStart : bool) (content f : string) : bool :=
  (atStart && startsWith content f) ||
  match content with
  | EmptyString => false
  | String a rest =>
      occursAtLineStart (Ascii.eqb a LF || (atStart && is_space a)) rest f
  end.

Definition beginsLine (content f : string) : bool := occursAtLineStart true content f.

(** A step keeps the first line: it only appends. *)
Definition keepsHead (f : list string -> list string) : Prop :=
  forall h t, exists t', f (h :: t) = h :: t'.

(* ===================================================================== *)
(** ** Sample inputs *)
(* ===================================================================== *)

(** A result set that is present, with an empty [results] array and no
    answer. *)
Definition emptyResponse : SearchResponse := {| answer := None; results := Some [] |}.

(** A provider that always answers with one present, empty result set. *)
Definition quietProvider : string -> SearchOptions -> Thrown + option SearchResponse :=
  fun _ _ => inr (Some emptyResponse).

(** A provider whose every call is rejected with the given error. *)
Definition failingProvider (error : Thrown)
  : string -> SearchOptions -> Thrown + option SearchResponse :=
  fun _ _ => inl error.

Definition invalidKeyError : Thrown := ErrorObject "Error" "Invalid api_key provided".

(** The request of the examples. *)
Definition hooksRequest : Args.t :=
  {| Args.query := Some "react hooks"; Args.type := Some "docs" |}.

Definition proseResult : SearchResult :=
  {| url := "https://react.dev"; title := "React Docs";
     Tavily.content := Some "Effects run after render.";
     rawContent := Some "Effects run after render and may return a cleanup." |}.

(** The result set of the specification's documentation scenario. *)
Definition docsResponse : SearchResponse :=
  {| answer := Some "Use useEffect for side effects.";
     results := Some [ {| url := "https://react.dev"; title := "React Docs";
                          Tavily.content := Some "useEffect runs after render.";
                          rawContent := None |} ] |}.

(** A result set whose one hit carries a fenced block. *)
Definition codeResponse : SearchResponse :=
  {| answer := None;
     results := Some [ {| url := "https://react.dev"; title := "React Docs";
                          Tavily.content := None;
                          rawContent := Some ("Try " ++ fence ++ "js" ++ nl
                                              ++ "let n = 1;" ++ nl ++ fence) |} ] |}.

(** The text of the specification's fenced example. *)
Definition fencedExample : string :=
  "Here: " ++ fence ++ "const x = 1;" ++ fence ++ " and also " ++ tick ++ "y" ++ tick.

(* ===================================================================== *)
(** ** The specification side: the language of a pattern *)
(* ===================================================================== *)

(** Every character of [s] is in the class [p]. *)
Fixpoint allChars (p : ascii -> bool) (s : string) : bool :=
  match s with
  | EmptyString => true
  | String a s' => p a && allChars p s'
  end.

(** Some character of [s] is in the class [p]. *)
Fixpoint hasChar (p : ascii -> bool) (s : string) : bool :=
  match s with
  | EmptyString => false
  | String a s' => p a || hasChar p s'
  end.

(** The texts a pattern can match, read off its syntax. *)
Fixpoint lang (r : regex) (u : string) : Prop :=
  match r with
  | Lit l => u = l
  | Cls p => exists a, u = String a EmptyString /\ p a = true
  | Star _ p => allChars p u = true
  | Opt r1 => u = EmptyString \/ lang r1 u
  | Seq r1 r2 => exists u1 u2, u = u1 ++ u2 /\ lang r1 u1 /\ lang r2 u2
  | Alt r1 r2 => lang r1 u \/ lang r2 u
  | Cap _ r1 => lang r1 u
  end.

(** [f] occurs in [content] as it stands. *)
Definition occursIn (f content : string) : Prop :=
  exists pre post, content = pre ++ f ++ post.

Definition hookNames : list string :=
  ["useEffect"; "useState"; "useCallback"; "useMemo"].

(** A hook name, an opening parenthesis, any text, a closing parenthesis
    and one terminator. *)
Definition hookShaped (f : string) : Prop :=
  exists name body t,
    In name hookNames
    /\ f = name ++ "(" ++ body ++ ")" ++ String t EmptyString
    /\ isTerminator t = true.

(** An opening tag made of tag characters, any text, and a closing tag
    whose name is made of word characters. *)
Definition markupShaped (f : string) : Prop :=
  exists attrs body name,
    f = "<" ++ attrs ++ ">" ++ body ++ "</" ++ name ++ ">"
    /\ nonEmpty attrs = true /\ allChars tagChar attrs = true
    /\ nonEmpty name = true /\ allChars is_word name = true.

(** The characters one of which every fragment needs: the backtick, a
    terminator, or the closing angle bracket. *)
Definition codeMark (a : ascii) : bool :=
  Ascii.eqb a backtick || isTerminator a || Ascii.eqb a ">".

(** [frags] are pieces of [s] that follow one another without overlap:
    [s] is a gap, the first piece, a gap, the second piece, and so on. *)
Inductive Woven : string -> list string -> Prop :=
| Woven_nil s : Woven s []
| Woven_cons gap f s frags :
    Woven s frags -> Woven (gap ++ f ++ s) (f :: frags).

(** The total length of a list of fragments. *)
Fixpoint totalLength (l : list string) : nat :=
  match l with
  | [] => 0
  | f :: l' => String.length f + totalLength l'
  end.

(** Every capture group that is set holds a piece of [inp]. *)
Definition capsIn (inp : string) (c : Captures) : Prop :=
  forall n v, c n = Some v -> occursIn v inp.

(** The longest run of word characters at the start of [s], and the rest. *)
Fixpoint wordRun (s : string) : string * string :=
  match s with
  | EmptyString => (EmptyString, EmptyString)
  | String a s' =>
      if is_word a
      then let (w, r) := wordRun s' in (String a w, r)
      else (EmptyString, s)
  end.

(** The inner text of a fenced block without its language line: when the
    text starts with one or more word characters ended by a line feed,
    that first line is left out. *)
Definition dropLanguageTag (inner : string) : string :=
  match wordRun inner with
  | (String _ _, String a rest) => if Ascii.eqb a LF then rest else inner
  | _ => inner
  end.

(* ===================================================================== *)
(** ** The ListTools and ListResources handlers *)
(* ===================================================================== *)

Module Tool.

(** The [inputSchema] of a tool: the two properties [query] and [type],
    with the enumeration and the default of [type], and the required
    keys. *)
Record InputSchema : Type := {
  queryDescription : string;
  typeDescription : string;
  typeEnum : list string;
  typeDefault : string;
  required : list string
}.

Record t : Type := {
  name : string;
  description : string;
  inputSchema : InputSchema
}.

End Tool.

Module Resource.

Record t : Type := {
  uri : string;
  name : string;
  mimeType : string;
  description : string
}.

End Resource.

Definition searchTool : Tool.t :=
  {| Tool.name := "search";
     Tool.description :=
       "AI-powered technical search optimized for coding assistance. Use this to find code examples, documentation, debug solutions, and learning resources.";
     Tool.inputSchema :=
       {| Tool.queryDescription :=
            "Search query - be specific about programming language, framework, or error message";
          Tool.typeDescription := "Type of technical search needed";
          Tool.typeEnum := ["code"; "docs"; "debug"; "learn"];
          Tool.typeDefault := "code";
          Tool.required := ["query"] |} |}.

(** [server.setRequestHandler(ListToolsRequestSchema, async () => ...)] *)
Definition listTools : M (list Tool.t) := ret [searchTool].

(** [server.setRequestHandler(ListResourcesRequestSchema, async () => ...)] *)
Definition listResources : M (list Resource.t) :=
  ret [ {| Resource.uri :=
             "websearch://query=" ++ tick ++ "react hooks useEffect example" ++ tick
             ++ ",type=" ++ tick ++ "code" ++ tick;
           Resource.name := "Code search example for React hooks";
           Resource.mimeType := "application/json";
           Resource.description :=
             "Find code examples and implementation patterns using Tavily API" |} ].

(** The types the tool listing advertises. *)
Definition advertisedTypes : list string := Tool.typeEnum (Tool.inputSchema searchTool).

(* ===================================================================== *)
(** ** The specification side: the lines of a report *)
(* ===================================================================== *)

Definition overview (c : SearchCategory) : string :=
  match c with
  | code => "Overview:"
  | docs => "Quick Reference:"
  | debug => "Quick Solution:"
  | learn => "Overview:"
  end.

(** The answer section: its sub-header and the answer, when the answer is
    present and not empty. *)
Definition answerLines (c : SearchCategory) (results : SearchResponse) : list string :=
  match answer results with
  | Some a => if nonEmpty a then [overview c; a ++ nl] else []
  | None => []
  end.

(** The content section of a result under [label]. *)
Definition contentLines (label : string) (result : SearchResult) : list string :=
  match Tavily.content result with
  | Some c => if nonEmpty c then [nl ++ label; c] else []
  | None => []
  end.

(** The fragments of a result: those of its raw content, when it has one. *)
Definition fragmentsOf (result : SearchResult) : list string :=
  match rawContent result with
  | Some raw => if nonEmpty raw then extractCodeBlocks raw else []
  | None => []
  end.

(** The block of the result at position [index] (counted from 0). *)
Definition blockLines (c : SearchCategory) (index : nat) (result : SearchResult)
  : list string :=
  match c with
  | code =>
      [("Example " ++ ofNat (index + 1) ++ ":")%string;
       ("Source: " ++ url result)%string]
      ++ flat_map (fun block => [(nl ++ "Code:")%string; trim block]) (fragmentsOf result)
      ++ contentLines "Description:" result ++ [EmptyString]
  | docs =>
      [title result; ("Source: " ++ url result)%string]
      ++ contentLines "Details:" result ++ [EmptyString]
  | debug =>
      [("Solution " ++ ofNat (index + 1) ++ ":")%string;
       ("Context: " ++ title result)%string;
       ("Source: " ++ url result)%string]
      ++ contentLines "Fix:" result ++ [EmptyString]
  | learn =>
      [title result; ("Source: " ++ url result)%string]
      ++ contentLines "Key Points:" result ++ [EmptyString]
  end%list.

(** The blocks of a list of results, the first at position [start]. *)
Fixpoint blocksFrom (c : SearchCategory) (start : nat) (l : list SearchResult)
  : list string :=
  match l with
  | [] => []
  | result :: l' => (blockLines c start result ++ blocksFrom c (S start) l')%list
  end.

(** The lines of a report: the header, the answer section, the blocks. *)
Definition reportLines (c : SearchCategory) (results : SearchResponse) : list string :=
  ((header c ++ nl)%string :: answerLines c results
   ++ blocksFrom c 0 (match Tavily.results results with Some l => l | None => [] end))%list.

(** A result set with every result changed by [f]. *)
Definition mapResults (f : SearchResult -> SearchResult) (results : SearchResponse)
  : SearchResponse :=
  {| answer := answer results;
     results := option_map (map f) (Tavily.results results) |}.

Definition withRawContent (raw : option string) (result : SearchResult) : SearchResult :=
  {| url := url result; title := title result;
     Tavily.content := Tavily.content result; rawContent := raw |}.

Definition withTitle (t : string) (result : SearchResult) : SearchResult :=
  {| url := url result; title := t;
     Tavily.content := Tavily.content result; rawContent := rawContent result |}.

(* ===================================================================== *)
(** ** The specification side: the world after a request *)
(* ===================================================================== *)

(** The world after one provider call that resolved. *)
Definition afterCall (w : World) (query : string) (options : SearchOptions) : World :=
  {| searchCalls := searchCalls w ++ [(query, options)]; stderr := stderr w |}.

(** The world after one provider call that was rejected, when the handler
    wrote [line] after [Search error:] on the error stream. *)
Definition afterFailure (w : World) (query : string) (options : SearchOptions)
           (line : string) : World :=
  {| searchCalls := searchCalls w ++ [(query, options)];
     stderr := stderr w ++ ["Search error: " ++ line] |}.

(* ===================================================================== *)
(** ** The specification side: the message of a failure *)
(* ===================================================================== *)

(** The failure carries the message [message]: it is an [Error] with that
    message, not empty; or an [Error] with an empty message, for which the
    message is its name (its [String(...)]); or a value with no message of
    its own, for which the message is its [String(...)]. *)
Inductive carriesMessage : Thrown -> string -> Prop :=
| carries_error name message :
    nonEmpty message = true -> carriesMessage (ErrorObject name message) message
| carries_name name : carriesMessage (ErrorObject name EmptyString) name
| carries_value shown : carriesMessage (ThrownValue shown) shown.


(** The request asks for a provider call with [query] in the category [c]:
    the tool is [search], the arguments carry the query, and the type
    ([args.type || "code"]) is the tag of [c]. *)
Definition requests (name : string) (args : option Args.t)
           (query : string) (c : SearchCategory) : Prop :=
  name = "search"
  /\ exists a, args = Some a /\ Args.query a = Some query
                /\ typeOf (Args.type a) = tag c.


(* ===================================================================== *)
(** ** Strings *)
(* ===================================================================== *)

Lemma length_append s t : String.length (s ++ t) = String.length s + String.length t.
Proof. induction s as [|a s IH]; cbn; [reflexivity|now rewrite IH]. Qed.

Lemma append_assoc (s t u : string) : (s ++ t) ++ u = s ++ t ++ u.
Proof. induction s as [|a s IH]; cbn; [reflexivity|now rewrite IH]. Qed.

Lemma append_nil_r (s : string) : s ++ EmptyString = s.
Proof. induction s as [|a s IH]; cbn; [reflexivity|now rewrite IH]. Qed.

Lemma substring_prefix u s : substring 0 (String.length u) (u ++ s) = u.
Proof.
  induction u as [|a u IH]; cbn.
  - destruct s; reflexivity.
  - now rewrite IH.
Qed.

(* ===================================================================== *)
(** ** Properties of the handler and of the formatter *)
(* ===================================================================== *)

Lemma searchByType_tag provider query c w :
  searchByType provider query (tag c) w =
  tvlySearch provider query (policyFor c) w.
Proof. destruct c; reflexivity. Qed.

Lemma searchByType_unrecognized provider query type w :
  ~ recognized type -> searchByType provider query type w = (inr None, w).
Proof.
  intros Hn. unfold searchByType.
  destruct (String.eqb_spec type "code") as [->|_];
    [exfalso; apply Hn; exists code; reflexivity|].
  destruct (String.eqb_spec type "docs") as [->|_];
    [exfalso; apply Hn; exists docs; reflexivity|].
  destruct (String.eqb_spec type "debug") as [->|_];
    [exfalso; apply Hn; exists debug; reflexivity|].
  destruct (String.eqb_spec type "learn") as [->|_];
    [exfalso; apply Hn; exists learn; reflexivity|].
  reflexivity.
Qed.

(** The formatter neither throws nor touches the world. *)
Lemma processSearchResults_pure results type :
  exists t, forall w, processSearchResults results type w = (inr (textContent t), w).
Proof.
  unfold processSearchResults. destruct results as [r|].
  - destruct (List.length (formatLines r type []) =? 0); eexists; intros; reflexivity.
  - eexists; intros; reflexivity.
Qed.

(** The [catch] block makes no provider call. *)
Lemma onError_searchCalls error w : searchCalls (snd (onError error w)) = searchCalls w.
Proof.
  unfold onError, bind, consoleError, throw, respond, ret.
  destruct error as [|name message|printed|shown]; cbn [errorMessageOf]; try reflexivity.
  - destruct (includes _ "api_key"); [reflexivity|].
    destruct (includes _ "rate limit"); reflexivity.
  - destruct (includes _ "api_key"); [reflexivity|].
    destruct (includes _ "rate limit"); reflexivity.
Qed.

(** Nor does it answer with the fallback text of the formatter. *)
Lemma onError_not_fallback error w :
  fst (onError error w) <> inr {| content := [textContent nothingRelevantText] |}.
Proof.
  unfold onError, bind, consoleError, throw, respond, ret.
  destruct error as [|name message|printed|shown]; cbn [errorMessageOf fst];
    try discriminate.
  - destruct (includes _ "api_key"); [discriminate|].
    destruct (includes _ "rate limit"); discriminate.
  - destruct (includes _ "api_key"); [discriminate|].
    destruct (includes _ "rate limit"); discriminate.
Qed.

(** C1.  For each of the four categories, a [search] call whose arguments
    carry a query and that category makes exactly one call to the provider,
    with the query and with the row of the policy table for the category
    (code: 3 results, advanced; docs: 2, basic; debug: 5, advanced;
    learn: 3, basic; answer and raw content always included), whatever the
    provider then answers. *)
Theorem callTool_policy provider (c : SearchCategory) (query : string) (w : World) :
  searchCalls (snd (callTool provider "search"
                      (Some {| Args.query := Some query; Args.type := Some (tag c) |}) w))
  = (searchCalls w ++ [(query, policyFor c)])%list.
Proof.
  unfold callTool, tryCatch, bind. cbn [negb String.eqb Ascii.eqb Bool.eqb Args.query Args.type].
  replace (typeOf (Some (tag c))) with (tag c) by (destruct c; reflexivity).
  rewrite searchByType_tag. unfold tvlySearch.
  destruct (provider query (policyFor c)) as [e|r].
  - apply onError_searchCalls.
  - destruct (processSearchResults_pure r (tag c)) as [t Ht]. rewrite Ht. reflexivity.
Qed.

Lemma recognized_dec type : {recognized type} + {~ recognized type}.
Proof.
  destruct (String.eqb_spec type "code") as [->|H1]; [left; exists code; reflexivity|].
  destruct (String.eqb_spec type "docs") as [->|H2]; [left; exists docs; reflexivity|].
  destruct (String.eqb_spec type "debug") as [->|H3]; [left; exists debug; reflexivity|].
  destruct (String.eqb_spec type "learn") as [->|H4]; [left; exists learn; reflexivity|].
  right. intros [[] E]; cbn in E; congruence.
Qed.

Lemma typeOf_nonEmpty type : nonEmpty type = true -> typeOf (Some type) = type.
Proof. unfold typeOf, orElse, truthy. intros ->. reflexivity. Qed.

(** C7.  Whatever the category string, formatting an absent result set
    resolves (it does not throw) to the fixed text
    "No results were found for your query. Please try a different search
    term.", and changes nothing outside. *)
Theorem processSearchResults_absent (type : string) (w : World) :
  processSearchResults None type w = (inr (textContent noResultsText), w).
Proof. reflexivity. Qed.

(** C3 (what the code does).  For each of the four categories, formatting
    a present result set with [results: []] and no answer returns the
    category header alone, followed by a line feed; this is not the
    "completed but no relevant information" text: the header is pushed
    before the test [responseText.length === 0]. *)
Theorem processSearchResults_empty_results_header_only (c : SearchCategory) (w : World) :
  processSearchResults (Some emptyResponse) (tag c) w
    = (inr (textContent (header c ++ nl)), w)
  /\ header c ++ nl <> nothingRelevantText.
Proof. destruct c; split; (reflexivity || discriminate). Qed.

(** The fallback text is reached only with a category that is not one of
    the four tags. *)
Lemma processSearchResults_unrecognized results type w :
  ~ recognized type ->
  processSearchResults (Some results) type w = (inr (textContent nothingRelevantText), w).
Proof.
  intros Hn. unfold processSearchResults, formatLines.
  destruct (String.eqb_spec type "code") as [->|_];
    [exfalso; apply Hn; exists code; reflexivity|].
  destruct (String.eqb_spec type "docs") as [->|_];
    [exfalso; apply Hn; exists docs; reflexivity|].
  destruct (String.eqb_spec type "debug") as [->|_];
    [exfalso; apply Hn; exists debug; reflexivity|].
  destruct (String.eqb_spec type "learn") as [->|_];
    [exfalso; apply Hn; exists learn; reflexivity|].
  reflexivity.
Qed.

(** C4 (counterexample).  With the type "snippets", which is none of the
    four tags, the call does not reach the provider, and its answer is not
    the "completed but no relevant information" text. *)
Lemma callTool_unrecognized_counterexample :
  let run := callTool quietProvider "search"
               (Some {| Args.query := Some "react hooks"; Args.type := Some "snippets" |})
               emptyWorld in
  searchCalls (snd run) = []
  /\ fst run <> inr {| content := [textContent nothingRelevantText] |}.
Proof. cbv zeta. split; [reflexivity | discriminate]. Qed.

(** C4 (amended).  For every [search] call whose arguments carry a query and
    a non-empty type outside the four tags, no policy branch matches: the
    provider is not called, the result set stays absent, and the response is
    the fixed "No results were found ..." text. *)
Theorem callTool_unrecognized provider (query type : string) (w : World) :
  nonEmpty type = true ->
  ~ recognized type ->
  callTool provider "search"
    (Some {| Args.query := Some query; Args.type := Some type |}) w
  = (inr {| content := [textContent noResultsText] |}, w).
Proof.
  intros Hne Hn. unfold callTool, tryCatch, bind.
  cbn [negb String.eqb Ascii.eqb Bool.eqb Args.query Args.type].
  rewrite (typeOf_nonEmpty _ Hne).
  rewrite (searchByType_unrecognized _ _ _ _ Hn). reflexivity.
Qed.

Lemma callTool_unrecognized_witness :
  callTool quietProvider "search"
    (Some {| Args.query := Some "react hooks"; Args.type := Some "snippets" |}) emptyWorld
  = (inr {| content := [textContent noResultsText] |}, emptyWorld).
Proof.
  apply (callTool_unrecognized quietProvider "react hooks" "snippets" emptyWorld).
  - reflexivity.
  - intros [[] H]; discriminate H.
Defined.

(** C6.  A [search] call whose arguments do not include a query field is
    answered with the fixed text "Error: Invalid arguments. A 'query'
    parameter is required."; the world is unchanged, so the provider is not
    called. *)
Theorem callTool_missing_query provider (args : option Args.t) (w : World) :
  lacksQuery args ->
  callTool provider "search" args w
  = (inr {| content := [textContent invalidArgumentsText] |}, w).
Proof.
  intros H. unfold callTool. cbn [negb String.eqb Ascii.eqb Bool.eqb].
  destruct args as [a|]; [|reflexivity].
  cbn in H. rewrite H. reflexivity.
Qed.

Lemma callTool_missing_query_witness :
  callTool quietProvider "search"
    (Some {| Args.query := None; Args.type := Some "docs" |}) emptyWorld
  = (inr {| content := [textContent invalidArgumentsText] |}, emptyWorld).
Proof.
  apply (callTool_missing_query quietProvider
           (Some {| Args.query := None; Args.type := Some "docs" |}) emptyWorld).
  reflexivity.
Defined.

Lemma push_head line h t : push line (h :: t) = h :: push line t.
Proof. reflexivity. Qed.

Lemma keepsHead_pushContent label result : keepsHead (pushContent label result).
Proof.
  intros h t. unfold pushContent.
  destruct (Tavily.content result) as [c|]; [destruct (nonEmpty c)|]; eauto.
  eexists. rewrite !push_head. reflexivity.
Qed.

Lemma keepsHead_fold_left {X} (f : X -> list string -> list string) (l : list X) :
  (forall x, keepsHead (f x)) ->
  keepsHead (fun acc => fold_left (fun acc x => f x acc) l acc).
Proof.
  intros Hf. induction l as [|x l IH]; intros h t; cbn; [eauto|].
  destruct (Hf x h t) as [t1 ->]. apply IH.
Qed.

Lemma keepsHead_pushCodeExample result index : keepsHead (pushCodeExample result index).
Proof.
  intros h t. unfold pushCodeExample. rewrite !push_head.
  set (acc := push _ (push _ t)).
  assert (Hraw : exists t1,
    match rawContent result with
    | Some raw =>
        if nonEmpty raw
        then if 0 <? List.length (extractCodeBlocks raw)
             then fold_left (fun responseText block =>
                               push (trim block) (push (nl ++ "Code:") responseText))
                            (extractCodeBlocks raw) (h :: acc)
             else h :: acc
        else h :: acc
    | None => h :: acc
    end = h :: t1).
  { destruct (rawContent result) as [raw|]; [|eauto].
    destruct (nonEmpty raw); [|eauto].
    destruct (0 <? List.length (extractCodeBlocks raw)); [|eauto].
    apply (keepsHead_fold_left
             (fun block l => push (trim block) (push (nl ++ "Code:") l))).
    intros x h' t'. eexists. rewrite !push_head. reflexivity. }
  destruct Hraw as [t1 ->].
  destruct (keepsHead_pushContent "Description:" result h t1) as [t2 ->].
  eexists. rewrite push_head. reflexivity.
Qed.

Lemma keepsHead_pushTitled label result index : keepsHead (pushTitled label result index).
Proof.
  intros h t. unfold pushTitled. rewrite !push_head.
  destruct (keepsHead_pushContent label result h (push ("Source: " ++ url result)
              (push (title result) t))) as [t2 ->].
  eexists. rewrite push_head. reflexivity.
Qed.

Lemma keepsHead_pushSolution result index : keepsHead (pushSolution result index).
Proof.
  intros h t. unfold pushSolution. rewrite !push_head.
  match goal with
  | |- context [pushContent ?l ?r (h :: ?acc)] =>
      destruct (keepsHead_pushContent l r h acc) as [t2 ->]
  end.
  eexists. rewrite push_head. reflexivity.
Qed.

Lemma keepsHead_forEachFrom {X} (f : X -> nat -> list string -> list string) (l : list X) :
  (forall x i, keepsHead (f x i)) -> forall start, keepsHead (forEachFrom start f l).
Proof.
  intros Hf. induction l as [|x l IH]; intros start h t; cbn; [eauto|].
  destruct (Hf x start h t) as [t1 ->]. apply IH.
Qed.

Lemma keepsHead_pushResults f results :
  (forall x i, keepsHead (f x i)) -> keepsHead (pushResults f results).
Proof.
  intros Hf h t. unfold pushResults, forEach.
  destruct (Tavily.results results); [now apply keepsHead_forEachFrom | eauto].
Qed.

Lemma pushHeading_head header overview results :
  exists t, pushHeading header overview results [] = (header ++ nl) :: t.
Proof.
  unfold pushHeading. destruct (answer results) as [a|]; [destruct (nonEmpty a)|];
    eexists; reflexivity.
Qed.

(** In a recognized category the first line of the report is the header. *)
Lemma formatLines_header results c :
  exists t, formatLines results (tag c) [] = (header c ++ nl) :: t.
Proof.
  destruct c; unfold formatLines; cbn [tag header String.eqb Ascii.eqb Bool.eqb];
    match goal with
    | |- context [pushHeading ?h ?o results []] =>
        destruct (pushHeading_head h o results) as [t ->]
    end;
    apply keepsHead_pushResults; intros x i;
    auto using keepsHead_pushCodeExample, keepsHead_pushTitled, keepsHead_pushSolution.
Qed.

Lemma join_head sep h t : exists rest, join sep (h :: t) = h ++ rest.
Proof.
  destruct t; cbn [join]; [exists EmptyString; now rewrite append_nil_r | eauto].
Qed.

(** So, in a recognized category, the report of a present result set starts
    with the header: the "completed but no relevant information" text is
    never returned there. *)
Lemma processSearchResults_recognized results c w :
  exists rest,
    processSearchResults (Some results) (tag c) w
    = (inr (textContent (header c ++ nl ++ rest)), w).
Proof.
  unfold processSearchResults.
  destruct (formatLines_header results c) as [t ->]. cbn [List.length Nat.eqb].
  destruct (join_head nl (header c ++ nl) t) as [rest ->].
  exists rest. now rewrite append_assoc.
Qed.

(** X19.  The handler never answers with the "completed but no relevant
    information" text, whatever the request and the provider: with a type
    outside the four tags the result set is absent, and with one of the four
    the header is there, so the fallback of the formatter is dead code. *)
Lemma callTool_never_nothingRelevant provider name args w :
  fst (callTool provider name args w)
  <> inr {| content := [textContent nothingRelevantText] |}.
Proof.
  unfold callTool.
  destruct (negb (String.eqb name "search")); [cbn; discriminate|].
  destruct args as [a|]; [|cbn; discriminate].
  destruct (Args.query a) as [query|]; [|cbn; discriminate].
  unfold tryCatch, bind.
  destruct (recognized_dec (typeOf (Args.type a))) as [[c Hc]|Hn].
  - rewrite Hc, searchByType_tag. unfold tvlySearch.
    destruct (provider query (policyFor c)) as [e|[r|]].
    + apply onError_not_fallback.
    + destruct (processSearchResults_recognized r c
                  {| searchCalls := searchCalls w ++ [(query, policyFor c)];
                     stderr := stderr w |}) as [rest ->].
      destruct c; cbn; discriminate.
    + cbn. discriminate.
  - rewrite (searchByType_unrecognized _ _ _ _ Hn). cbn. discriminate.
Qed.

(** The documentation scenario of the specification, and a code report. *)
Example processSearchResults_docs_scenario :
  processSearchResults (Some docsResponse) "docs" emptyWorld
  = (inr (textContent (join nl
            [ "Technical Documentation:" ++ nl;
              "Quick Reference:";
              "Use useEffect for side effects." ++ nl;
              "React Docs";
              "Source: https://react.dev";
              nl ++ "Details:";
              "useEffect runs after render.";
              EmptyString ])), emptyWorld).
Proof. reflexivity. Qed.

Example processSearchResults_code_report :
  processSearchResults (Some codeResponse) "code" emptyWorld
  = (inr (textContent (join nl
            [ "Code Examples & Implementation:" ++ nl;
              "Example 1:";
              "Source: https://react.dev";
              nl ++ "Code:";
              "let n = 1;";
              EmptyString ])), emptyWorld).
Proof. vm_compute. reflexivity. Qed.

(** C10.  In the code category, a result whose raw content is present and
    gives the extractor no fragment contributes exactly: its "Example N:"
    label (N the position counted from 1), its "Source:" line, the
    Description header and text when the content is present and non-empty,
    and the empty separator line; no "Code:" header is pushed. *)
Theorem pushCodeExample_no_fragments
        (result : SearchResult) (index : nat) (raw : string) (responseText : list string) :
  rawContent result = Some raw ->
  extractCodeBlocks raw = [] ->
  pushCodeExample result index responseText
  = (responseText
      ++ [("Example " ++ ofNat (index + 1) ++ ":")%string;
          ("Source: " ++ url result)%string]
      ++ descriptionLines result
      ++ [EmptyString])%list.
Proof.
  intros Hraw Hnone. unfold pushCodeExample, pushContent, descriptionLines, push.
  rewrite Hraw, Hnone. cbn [List.length Nat.ltb Nat.leb].
  destruct (nonEmpty raw);
    destruct (Tavily.content result) as [c|]; try destruct (nonEmpty c);
    repeat rewrite <- app_assoc; reflexivity.
Qed.

Lemma pushCodeExample_no_fragments_witness :
  pushCodeExample proseResult 0 []
  = ["Example 1:"; "Source: https://react.dev";
     nl ++ "Description:"; "Effects run after render."; EmptyString].
Proof.
  apply (pushCodeExample_no_fragments proseResult 0
           "Effects run after render and may return a cleanup." []).
  - reflexivity.
  - vm_compute. reflexivity.
Defined.

(* ===================================================================== *)
(** ** Failure classification *)
(* ===================================================================== *)









Lemma stripPrefix_spec p s r : stripPrefix p s = Some r <-> s = p ++ r.
Proof.
  revert s. induction p as [|a p IH]; intros s; cbn.
  - split; [intros [= ->]; reflexivity | intros ->; reflexivity].
  - destruct s as [|b s]; [split; discriminate|].
    destruct (Ascii.eqb_spec a b) as [->|Hab].
    + rewrite IH. split; [intros ->; reflexivity | intros [= ->]; reflexivity].
    + split; [discriminate | intros [= -> _]; contradiction].
Qed.





(** The [catch] block on a failure that carries a message: one line on the
    error stream, and the report chosen by the two tests in their order. *)
Lemma onError_carried error message w :
  carriesMessage error message ->
  onError error w
  = (inr {| content :=
              [textContent
                 (if includes (toLowerCase message) "api_key"
                  then authenticationErrorText
                  else if includes (toLowerCase message) "rate limit"
                       then rateLimitText
                       else unexpectedErrorText message)] |},
     {| searchCalls := searchCalls w;
        stderr := stderr w ++ ["Search error: " ++ message] |}).
Proof.
  intros H. unfold onError.
  assert (Hm : errorMessageOf error = inr (MessageString message)).
  { destruct H as [name message Hne|name|shown]; cbn [errorMessageOf].
    - now rewrite Hne.
    - destruct name; reflexivity.
    - reflexivity. }
  rewrite Hm. unfold bind, consoleError, respond, ret. cbn [printedMessage].
  destruct (includes (toLowerCase message) "api_key"); [reflexivity|].
  destruct (includes (toLowerCase message) "rate limit"); reflexivity.
Qed.




(** The three messages of the specification's examples. *)
Example failure_invalid_api_key :
  fst (callTool (failingProvider invalidKeyError) "search"
         (Some {| Args.query := Some "react hooks"; Args.type := None |}) emptyWorld)
  = inr {| content := [textContent authenticationErrorText] |}.
Proof. reflexivity. Qed.

Example failure_rate_limit :
  fst (callTool (failingProvider (ErrorObject "Error" "Rate limit reached")) "search"
         (Some {| Args.query := Some "react hooks"; Args.type := None |}) emptyWorld)
  = inr {| content := [textContent rateLimitText] |}.
Proof. reflexivity. Qed.

Example failure_timeout :
  fst (callTool (failingProvider (ErrorObject "Error" "timeout")) "search"
         (Some {| Args.query := Some "react hooks"; Args.type := None |}) emptyWorld)
  = inr {| content := [textContent
       "An unexpected error occurred during the search. Please try again later. Error: timeout"] |}.
Proof. reflexivity. Qed.

(* ===================================================================== *)
(** ** Properties of the matcher *)
(* ===================================================================== *)

Lemma taken_app u rest : taken (u ++ rest) rest = u.
Proof.
  unfold taken, consumed. rewrite length_append.
  replace (String.length u + String.length rest - String.length rest)
    with (String.length u) by lia.
  apply substring_prefix.
Qed.

Section MatcherFacts.
Context {A : Type}.

Lemma starGreedy_suffix p s (k : string -> option A) x :
  starGreedy p s k = Some x -> exists u s', s = u ++ s' /\ k s' = Some x.
Proof.
  induction s as [|a s IH]; cbn.
  - intros H. exists EmptyString, EmptyString. auto.
  - destruct (p a).
    + destruct (starGreedy p s k) as [y|] eqn:E.
      * intros [= ->]. destruct (IH eq_refl) as (u & s' & -> & Hk).
        exists (String a u), s'. auto.
      * intros H. exists EmptyString, (String a s). auto.
    + intros H. exists EmptyString, (String a s). auto.
Qed.

Lemma starLazy_unfold p s (k : string -> option A) :
  starLazy p s k =
  match k s with
  | Some x => Some x
  | None =>
      match s with
      | String a s' => if p a then starLazy p s' k else None
      | EmptyString => None
      end
  end.
Proof. destruct s; reflexivity. Qed.

Lemma starLazy_suffix p s (k : string -> option A) x :
  starLazy p s k = Some x -> exists u s', s = u ++ s' /\ k s' = Some x.
Proof.
  induction s as [|a s IH]; rewrite starLazy_unfold.
  - destruct (k EmptyString) eqn:E; [|discriminate].
    intros [= ->]. exists EmptyString, EmptyString. auto.
  - destruct (k (String a s)) eqn:E.
    + intros [= ->]. exists EmptyString, (String a s). auto.
    + destruct (p a); [|discriminate].
      intros H. destruct (IH H) as (u & s' & -> & Hk).
      exists (String a u), s'. auto.
Qed.

(** A successful match consumed a prefix [u] of the input, at least
    [minLen r] long, and the continuation succeeded on the rest. *)
Lemma rmatch_sound r : forall s c (k : string -> Captures -> option A) x,
  rmatch r s c k = Some x ->
  exists u s' c', s = u ++ s' /\ k s' c' = Some x /\ minLen r <= String.length u.
Proof.
  induction r as [l|p|g p|r IH|r1 IH1 r2 IH2|r1 IH1 r2 IH2|n r IH];
    intros s c k x; cbn [rmatch minLen].
  - destruct (stripPrefix l s) as [s'|] eqn:E; [|discriminate].
    apply stripPrefix_spec in E. intros H. exists l, s', c. auto.
  - destruct s as [|a s]; [discriminate|]. destruct (p a); [|discriminate].
    intros H. exists (String a EmptyString), s, c. cbn. auto.
  - destruct g; intros H;
      [apply starGreedy_suffix in H | apply starLazy_suffix in H];
      destruct H as (u & s' & -> & Hk); exists u, s', c; repeat split; auto with arith.
  - destruct (rmatch r s c k) as [y|] eqn:E.
    + intros [= ->]. destruct (IH _ _ _ _ E) as (u & s' & c' & -> & Hk & _).
      exists u, s', c'. repeat split; auto with arith.
    + intros H. exists EmptyString, s, c. repeat split; auto.
  - intros H. destruct (IH1 _ _ _ _ H) as (u1 & s1 & c1 & -> & H2 & L1).
    destruct (IH2 _ _ _ _ H2) as (u2 & s2 & c2 & -> & Hk & L2).
    exists (u1 ++ u2), s2, c2. rewrite append_assoc, length_append.
    repeat split; auto. lia.
  - destruct (rmatch r1 s c k) as [y|] eqn:E.
    + intros [= ->]. destruct (IH1 _ _ _ _ E) as (u & s' & c' & -> & Hk & L).
      exists u, s', c'. repeat split; auto. lia.
    + intros H. destruct (IH2 _ _ _ _ H) as (u & s' & c' & -> & Hk & L).
      exists u, s', c'. repeat split; auto. lia.
  - intros H. destruct (IH _ _ _ _ H) as (u & s' & c' & -> & Hk & L).
    eexists u, s', _. repeat split; eauto.
Qed.
End MatcherFacts.

(** The text of a match is a prefix of the input it was found at, at least
    [minLen r] long. *)
Lemma matchAt_prefix r s m :
  matchAt r s = Some m ->
  exists rest, s = matched m ++ rest /\ minLen r <= String.length (matched m).
Proof.
  unfold matchAt. intros H.
  apply rmatch_sound in H as (u & s' & c' & -> & [= <-] & L).
  cbn. rewrite taken_app. eauto.
Qed.

(** Every match of the iteration was found at some suffix of the input. *)
Lemma matchesFrom_matchAt r m : forall s skip,
  In m (matchesFrom r s skip) ->
  exists pre suf, s = pre ++ suf /\ matchAt r suf = Some m.
Proof.
  induction s as [|a s IH]; intros skip; cbn.
  - destruct skip; [|intros []].
    destruct (matchAt r EmptyString) as [m'|] eqn:E; [|intros []].
    intros [<-|[]]. exists EmptyString, EmptyString. auto.
  - destruct skip as [|n].
    + destruct (matchAt r (String a s)) as [m'|] eqn:E.
      * intros [<-|H].
        -- exists EmptyString, (String a s). auto.
        -- destruct (IH _ H) as (pre & suf & -> & Hm). exists (String a pre), suf. auto.
      * intros H. destruct (IH _ H) as (pre & suf & -> & Hm). exists (String a pre), suf. auto.
    + intros H. destruct (IH _ H) as (pre & suf & -> & Hm). exists (String a pre), suf. auto.
Qed.

(** The matches of [codeBlockRegex] are never empty: the [while] loop over
    [exec] advances [lastIndex] at every turn. *)
Lemma codeBlockRegex_progress s m :
  matchAt codeBlockRegex s = Some m -> 3 <= String.length (matched m).
Proof.
  intros H. apply matchAt_prefix in H as (rest & _ & L). exact L.
Qed.

(* ===================================================================== *)
(** ** Properties of extractCodeBlocks *)
(* ===================================================================== *)

Lemma pushMatches_familyBlocks content blocks pattern :
  pushMatches content blocks pattern = (blocks ++ familyBlocks pattern content)%list.
Proof.
  unfold pushMatches, strMatch, familyBlocks.
  destruct (matchesFrom pattern content 0); [now rewrite app_nil_r | reflexivity].
Qed.

Lemma codeLikeBlocks_statementScan content :
  codeLikeBlocks content [] = statementScan content.
Proof.
  unfold codeLikeBlocks, codeLikePatterns, statementScan. cbn [fold_left].
  rewrite !pushMatches_familyBlocks, <- app_assoc. reflexivity.
Qed.

(** C2.  The extractor returns the fenced and inline fragments alone
    whenever there is at least one, and the statement scan (declarations,
    then hook calls, then markup) only when there is none; on the text
    "Here: ```const x = 1;``` and also `y`" it returns the two fragments
    "const x = 1;" and "y", in that order. *)
Theorem extractCodeBlocks_precedence (content : string) :
  extractCodeBlocks content
  = match fencedBlocks content with
    | [] => statementScan content
    | block :: blocks => block :: blocks
    end
  /\ extractCodeBlocks fencedExample = ["const x = 1;"; "y"].
Proof.
  split; [|vm_compute; reflexivity].
  unfold extractCodeBlocks.
  destruct (fencedBlocks content) as [|b bs] eqn:E; cbn [List.length Nat.eqb].
  - apply codeLikeBlocks_statementScan.
  - reflexivity.
Qed.

Lemma matchAt_codeBlockRegex_backtick a s :
  notBacktick a = true -> matchAt codeBlockRegex (String a s) = None.
Proof.
  unfold notBacktick. rewrite negb_true_iff, Ascii.eqb_sym. intros H.
  unfold matchAt, codeBlockRegex, fence, tick. cbn [rmatch stripPrefix].
  rewrite H. reflexivity.
Qed.

Lemma fencedBlocks_noBacktick content :
  noBacktick content = true -> fencedBlocks content = [].
Proof.
  unfold fencedBlocks, execAll. intros H.
  replace (matchesFrom codeBlockRegex content 0) with (@nil Match); [reflexivity|].
  induction content as [|a s IH]; [reflexivity|].
  cbn in H. apply andb_true_iff in H as [Ha Hs].
  cbn [matchesFrom]. rewrite (matchAt_codeBlockRegex_backtick a s Ha). auto.
Qed.

Lemma starLazy_terminator {A} (k : string -> Captures -> option A) c s :
  (forall r, k r c <> None) ->
  starLazy anyChar s (fun s' => rmatch terminator s' c k)
  = match afterTerminator s with Some r => k r c | None => None end.
Proof.
  intros Hk. induction s as [|a s IH]; [reflexivity|].
  rewrite starLazy_unfold. unfold terminator at 1. cbn [rmatch stripPrefix afterTerminator].
  unfold isTerminator. rewrite (Ascii.eqb_sym a ";"), (Ascii.eqb_sym a "}").
  destruct (Ascii.eqb ";" a); cbn [orb].
  - destruct (k s c) eqn:E; [reflexivity|]. now apply Hk in E.
  - destruct (Ascii.eqb "}" a).
    + destruct (k s c) eqn:E; [reflexivity|]. now apply Hk in E.
    + cbn [anyChar]. exact IH.
Qed.

Lemma matchAt_declarationPattern s :
  option_map matched (matchAt declarationPattern s) = declarationAt keywords s.
Proof.
  unfold matchAt, declarationPattern, keywords. cbn [rmatch declarationAt].
  repeat match goal with
  | |- context [stripPrefix ?kw s] =>
      destruct (stripPrefix kw s) as [?s1|];
      [rewrite starLazy_terminator by discriminate;
       match goal with
       | |- context [afterTerminator ?x] =>
           destruct (afterTerminator x); [reflexivity|]
       end
      |]
  end.
  all: reflexivity.
Qed.

Lemma afterTerminator_spec s r :
  afterTerminator s = Some r ->
  exists body t, s = body ++ String t r /\ isTerminator t = true
                 /\ afterTerminator body = None.
Proof.
  induction s as [|a s IH]; cbn; [discriminate|].
  destruct (isTerminator a) eqn:E.
  - intros [= ->]. exists EmptyString, a. auto.
  - intros H. destruct (IH H) as (body & t & -> & Ht & Hb).
    exists (String a body), t. cbn. rewrite E. auto.
Qed.

Lemma afterTerminator_app x y :
  afterTerminator (x ++ y)
  = match afterTerminator x with
    | Some r => Some (r ++ y)
    | None => afterTerminator y
    end.
Proof.
  induction x as [|a x IH]; cbn; [reflexivity|].
  destruct (isTerminator a); [reflexivity | exact IH].
Qed.

Lemma declarationAt_shape kws s f :
  declarationAt kws s = Some f ->
  exists kw body t rest,
    In kw kws /\ s = kw ++ body ++ String t rest /\ isTerminator t = true
    /\ afterTerminator body = None /\ f = kw ++ body ++ String t EmptyString.
Proof.
  induction kws as [|kw kws IH]; cbn [declarationAt]; [discriminate|].
  assert (Hnext : declarationAt kws s = Some f ->
                  exists kw0 body t rest,
                    In kw0 (kw :: kws) /\ s = kw0 ++ body ++ String t rest
                    /\ isTerminator t = true /\ afterTerminator body = None
                    /\ f = kw0 ++ body ++ String t EmptyString).
  { intros H. destruct (IH H) as (kw0 & body & t & rest & Hin & Hrest).
    exists kw0, body, t, rest. split; [now right | exact Hrest]. }
  destruct (stripPrefix kw s) as [s1|] eqn:Ep; [|exact Hnext].
  destruct (afterTerminator s1) as [rest|] eqn:Et; [|exact Hnext].
  intros [= <-]. apply stripPrefix_spec in Ep as ->.
  apply afterTerminator_spec in Et as (body & t & -> & Ht & Hb).
  exists kw, body, t, rest. repeat split; auto; [now left|].
  replace (kw ++ body ++ String t rest)
    with ((kw ++ body ++ String t EmptyString) ++ rest)
    by (now rewrite !append_assoc).
  apply taken_app.
Qed.

Lemma stripPrefix_cons a p b s :
  stripPrefix (String a p) (String b s) = if Ascii.eqb a b then stripPrefix p s else None.
Proof. reflexivity. Qed.

(** No keyword that starts before the statement runs into it. *)
Lemma keyword_before_statement kw pre post s1 :
  In kw keywords -> pre <> EmptyString ->
  stripPrefix kw (pre ++ statement ++ post) = Some s1 ->
  exists pre1, pre = kw ++ pre1 /\ s1 = pre1 ++ statement ++ post.
Proof.
  intros Hin Hpre H. unfold keywords in Hin. cbn [In] in Hin.
  destruct pre as [|a0 pre]; [contradiction|]. clear Hpre.
  repeat (destruct Hin as [<-|Hin]; [|]); try contradiction;
    repeat first
      [ progress cbn [append] in H
      | match type of H with
        | stripPrefix (String _ _) (String _ _) = Some _ =>
            rewrite stripPrefix_cons in H;
            match type of H with
            | (if Ascii.eqb ?x ?y then _ else _) = _ =>
                destruct (Ascii.eqb_spec x y) as [<-|]; [|discriminate H]
            end
        | stripPrefix (String _ _) (?p ++ _) = Some _ =>
            destruct p as [|? p]; [vm_compute in H; discriminate H|]
        end ];
    cbn [stripPrefix] in H; injection H as <-; eexists; split; reflexivity.
Qed.

Lemma Some_eq {A} (x y : A) : Some x = Some y -> x = y.
Proof. intros H. now injection H. Qed.

(** At the statement itself the pattern matches the statement. *)
Lemma declarationAt_statement post :
  declarationAt keywords (statement ++ post) = Some statement.
Proof.
  unfold keywords, statement. cbn [declarationAt].
  change (stripPrefix "const" ("const a = 1;" ++ post)) with (Some (" a = 1;" ++ post)).
  cbv beta iota.
  change (afterTerminator (" a = 1;" ++ post)) with (Some post).
  cbv beta iota. f_equal. apply (taken_app "const a = 1;" post).
Qed.

(** A match that starts before the statement ends before it, or runs
    exactly to its end. *)
Lemma declarationAt_before_statement kws pre post f :
  incl kws keywords -> pre <> EmptyString ->
  declarationAt kws (pre ++ statement ++ post) = Some f ->
  String.length f <= String.length pre \/ f = pre ++ statement.
Proof.
  intros Hkws Hpre. induction kws as [|kw kws IH]; cbn [declarationAt]; [discriminate|].
  assert (Hin : In kw keywords) by (apply Hkws; now left).
  assert (Hincl : incl kws keywords) by (intros x Hx; apply Hkws; now right).
  destruct (stripPrefix kw (pre ++ statement ++ post)) as [s1|] eqn:Ep; [|now apply IH].
  destruct (keyword_before_statement _ _ _ _ Hin Hpre Ep) as (pre1 & -> & ->).
  rewrite afterTerminator_app.
  destruct (afterTerminator pre1) as [r|] eqn:Et.
  - intros H. apply Some_eq in H. subst f. left.
    apply afterTerminator_spec in Et as (body & t & -> & _ & _).
    replace ((kw ++ body ++ String t r) ++ statement ++ post)
      with ((kw ++ body ++ String t EmptyString) ++ r ++ statement ++ post)
      by (now rewrite !append_assoc).
    rewrite taken_app, !length_append. cbn. lia.
  - change (afterTerminator (statement ++ post)) with (Some post).
    intros H. apply Some_eq in H. subst f. right.
    rewrite <- (append_assoc (kw ++ pre1) statement post). apply taken_app.
Qed.

(** Wherever the statement stands, the scan of the declaration family
    yields a match that ends with it. *)
Lemma matchesFrom_statement post : forall pre skip,
  skip <= String.length pre ->
  exists m u, In m (matchesFrom declarationPattern (pre ++ statement ++ post) skip)
              /\ matched m = u ++ statement.
Proof.
  induction pre as [|a pre IH]; intros skip Hskip.
  - cbn in Hskip. replace skip with 0 by lia.
    pose proof (matchAt_declarationPattern (statement ++ post)) as Hm.
    rewrite declarationAt_statement in Hm.
    change (EmptyString ++ statement ++ post) with (String "c" ("onst a = 1;" ++ post)).
    change (statement ++ post) with (String "c" ("onst a = 1;" ++ post)) in Hm.
    cbn [matchesFrom].
    destruct (matchAt declarationPattern (String "c" ("onst a = 1;" ++ post)))
      as [m|]; [|discriminate].
    injection Hm as Hm. exists m, EmptyString. split; [now left | exact Hm].
  - cbn [append matchesFrom]. cbn in Hskip. destruct skip as [|n].
    + pose proof (matchAt_declarationPattern (String a pre ++ statement ++ post)) as Hm.
      cbn [append] in Hm.
      destruct (matchAt declarationPattern (String a (pre ++ statement ++ post)))
        as [m|] eqn:E.
      * cbn [option_map] in Hm. symmetry in Hm.
        apply (declarationAt_before_statement keywords (String a pre) post) in Hm;
          [|apply incl_refl|discriminate].
        destruct Hm as [Hlen|Heq].
        -- destruct (IH (String.length (matched m) - 1)) as (m' & u & Hin & Hu);
             [cbn in Hlen; lia|].
           exists m', u. split; [now right | exact Hu].
        -- exists m, (String a pre). split; [now left | exact Heq].
      * destruct (IH 0) as (m' & u & Hin & Hu); [lia|]. exists m', u. auto.
    + destruct (IH n) as (m' & u & Hin & Hu); [lia|]. exists m', u. auto.
Qed.

(** C8 (counterexample).  The text "x = outlet;" holds no backtick, and the
    declaration family yields the fragment "let;", cut out of the word
    "outlet": it does not begin a line. *)
Lemma declaration_fragment_counterexample :
  ~ (noBacktick "x = outlet;" = true ->
     forall f, In f (familyBlocks declarationPattern "x = outlet;") ->
               beginsLine "x = outlet;" f = true).
Proof.
  intros H. specialize (H eq_refl "let;" (or_introl eq_refl)).
  vm_compute in H. discriminate H.
Qed.

(** C8 (amended).  When the text holds no backtick, the extractor returns
    the statement scan; every fragment of the declaration family occurs in
    the text, starts with one of the keywords const, let, var, function,
    class, import, export (wherever the keyword stands, not only at the
    beginning of a line) and runs up to and including the first semicolon or
    closing brace after the keyword; and when the text contains
    "const a = 1;" the extractor returns a fragment that ends with that
    statement. *)
Theorem extractCodeBlocks_declarations (content : string) :
  noBacktick content = true ->
  extractCodeBlocks content = statementScan content
  /\ (forall f, In f (familyBlocks declarationPattern content) ->
        declarationShaped f /\ exists pre post, content = pre ++ f ++ post)
  /\ (forall pre post, content = pre ++ statement ++ post ->
        exists f u, In f (extractCodeBlocks content) /\ f = u ++ statement).
Proof.
  intros Hnb.
  assert (Hscan : extractCodeBlocks content = statementScan content).
  { unfold extractCodeBlocks. rewrite (fencedBlocks_noBacktick _ Hnb).
    apply codeLikeBlocks_statementScan. }
  split; [exact Hscan|]. split.
  - intros f Hf. unfold familyBlocks in Hf. apply in_map_iff in Hf as (m & <- & Hm).
    apply matchesFrom_matchAt in Hm as (pre & suf & -> & Hm).
    pose proof (matchAt_declarationPattern suf) as Hd. rewrite Hm in Hd.
    cbn [option_map] in Hd. symmetry in Hd.
    apply matchAt_prefix in Hm as (rest & Hsuf & _).
    apply declarationAt_shape in Hd as (kw & body & t & rest' & Hin & _ & Ht & Hb & Hf).
    split.
    + exists kw, body, t. auto.
    + exists pre, rest. now rewrite <- Hsuf.
  - intros pre post ->. rewrite Hscan.
    destruct (matchesFrom_statement post pre 0) as (m & u & Hin & Hu); [lia|].
    exists (matched m), u. split; [|exact Hu].
    unfold statementScan. apply in_or_app. left.
    unfold familyBlocks. now apply in_map.
Qed.

Lemma extractCodeBlocks_declarations_witness :
  extractCodeBlocks "foo const a = 1; bar" = statementScan "foo const a = 1; bar"
  /\ (forall f, In f (familyBlocks declarationPattern "foo const a = 1; bar") ->
        declarationShaped f /\ exists pre post, "foo const a = 1; bar" = pre ++ f ++ post)
  /\ (forall pre post, "foo const a = 1; bar" = pre ++ statement ++ post ->
        exists f u, In f (extractCodeBlocks "foo const a = 1; bar") /\ f = u ++ statement).
Proof.
  apply (extractCodeBlocks_declarations "foo const a = 1; bar").
  reflexivity.
Defined.

(** The specification's example, and a text where an earlier keyword opens the
    fragment that holds the statement. *)
Example extractCodeBlocks_statement :
  extractCodeBlocks "foo const a = 1; bar" = ["const a = 1;"].
Proof. vm_compute. reflexivity. Qed.

Example extractCodeBlocks_statement_inside :
  extractCodeBlocks "var const a = 1;" = ["var const a = 1;"].
Proof. vm_compute. reflexivity. Qed.

Example extractCodeBlocks_empty : extractCodeBlocks EmptyString = [].
Proof. reflexivity. Qed.

(* ===================================================================== *)
(** ** The matches of a pattern belong to its language *)
(* ===================================================================== *)

Lemma starGreedy_lang {A} p s (k : string -> option A) x :
  starGreedy p s k = Some x ->
  exists u s', s = u ++ s' /\ k s' = Some x /\ allChars p u = true.
Proof.
  induction s as [|a s IH]; cbn.
  - intros H. exists EmptyString, EmptyString. auto.
  - destruct (p a) eqn:Ea.
    + destruct (starGreedy p s k) as [y|] eqn:E.
      * intros H. apply Some_eq in H. subst y.
        destruct (IH eq_refl) as (u & s' & -> & Hk & Hu).
        exists (String a u), s'. cbn. rewrite Ea, Hu. auto.
      * intros H. exists EmptyString, (String a s). auto.
    + intros H. exists EmptyString, (String a s). auto.
Qed.

Lemma starLazy_lang {A} p s (k : string -> option A) x :
  starLazy p s k = Some x ->
  exists u s', s = u ++ s' /\ k s' = Some x /\ allChars p u = true.
Proof.
  induction s as [|a s IH]; rewrite starLazy_unfold.
  - destruct (k EmptyString) eqn:E; [|discriminate].
    intros H. apply Some_eq in H. subst. exists EmptyString, EmptyString. auto.
  - destruct (k (String a s)) eqn:E.
    + intros H. apply Some_eq in H. subst. exists EmptyString, (String a s). auto.
    + destruct (p a) eqn:Ea; [|discriminate].
      intros H. destruct (IH H) as (u & s' & -> & Hk & Hu).
      exists (String a u), s'. cbn. rewrite Ea, Hu. auto.
Qed.

(** A successful match consumed a text of the language of the pattern. *)
Lemma rmatch_lang {A} r : forall s c (k : string -> Captures -> option A) x,
  rmatch r s c k = Some x ->
  exists u s' c', s = u ++ s' /\ k s' c' = Some x /\ lang r u.
Proof.
  induction r as [l|p|g p|r IH|r1 IH1 r2 IH2|r1 IH1 r2 IH2|n r IH];
    intros s c k x; cbn [rmatch lang].
  - destruct (stripPrefix l s) as [s'|] eqn:E; [|discriminate].
    apply stripPrefix_spec in E. intros H. exists l, s', c. auto.
  - destruct s as [|a s]; [discriminate|]. destruct (p a) eqn:Ea; [|discriminate].
    intros H. exists (String a EmptyString), s, c. cbn. eauto.
  - destruct g; intros H;
      [apply starGreedy_lang in H | apply starLazy_lang in H];
      destruct H as (u & s' & -> & Hk & Hu); exists u, s', c; auto.
  - destruct (rmatch r s c k) as [y|] eqn:E.
    + intros H. apply Some_eq in H. subst y.
      destruct (IH _ _ _ _ E) as (u & s' & c' & -> & Hk & Hu).
      exists u, s', c'. auto.
    + intros H. exists EmptyString, s, c. auto.
  - intros H. destruct (IH1 _ _ _ _ H) as (u1 & s1 & c1 & -> & H2 & L1).
    destruct (IH2 _ _ _ _ H2) as (u2 & s2 & c2 & -> & Hk & L2).
    exists (u1 ++ u2), s2, c2. rewrite append_assoc. repeat split; eauto.
  - destruct (rmatch r1 s c k) as [y|] eqn:E.
    + intros H. apply Some_eq in H. subst y.
      destruct (IH1 _ _ _ _ E) as (u & s' & c' & -> & Hk & L).
      exists u, s', c'. auto.
    + intros H. destruct (IH2 _ _ _ _ H) as (u & s' & c' & -> & Hk & L).
      exists u, s', c'. auto.
  - intros H. destruct (IH _ _ _ _ H) as (u & s' & c' & -> & Hk & L).
    eexists u, s', _. repeat split; eauto.
Qed.

Lemma matchAt_lang r s m :
  matchAt r s = Some m ->
  lang r (matched m) /\ exists rest, s = matched m ++ rest.
Proof.
  unfold matchAt. intros H.
  apply rmatch_lang in H as (u & s' & c' & -> & H & L).
  apply Some_eq in H. subst m. cbn. rewrite taken_app. eauto.
Qed.

(** Every fragment of a family is in the language of its pattern and occurs
    in the text. *)
Lemma familyBlocks_lang pattern content f :
  In f (familyBlocks pattern content) -> lang pattern f /\ occursIn f content.
Proof.
  unfold familyBlocks. intros Hf. apply in_map_iff in Hf as (m & <- & Hm).
  apply matchesFrom_matchAt in Hm as (pre & suf & -> & Hm).
  apply matchAt_lang in Hm as (Hl & rest & ->).
  split; [exact Hl | now exists pre, rest].
Qed.

(* ===================================================================== *)
(** ** The hook and markup families *)
(* ===================================================================== *)

Lemma hook_shape_of content f :
  In f (familyBlocks hookPattern content) -> hookShaped f.
Proof.
  intros Hf. apply familyBlocks_lang in Hf as [Hl _].
  cbn [lang hookPattern terminator] in Hl.
  destruct Hl as (name & u2 & -> & Hname & u3 & u4 & -> & -> & body & u6 & -> & _
                  & u7 & t & -> & -> & Ht).
  assert (Hin : In name hookNames).
  { unfold hookNames. cbn [In]. destruct Hname as [<- | [<- | [<- | <-]]]; auto. }
  destruct Ht as [-> | ->].
  - exists name, body, ";"%char. auto.
  - exists name, body, "}"%char. auto.
Qed.

Lemma markup_shape_of content f :
  In f (familyBlocks markupPattern content) -> markupShaped f.
Proof.
  intros Hf. apply familyBlocks_lang in Hf as [Hl _].
  cbn [lang markupPattern Plus] in Hl.
  destruct Hl as (u1 & u2 & -> & -> & attrs & u4 & -> & Hattrs & u5 & u6 & -> & ->
                  & body & u8 & -> & _ & u9 & u10 & -> & -> & name & u11 & -> & Hname & ->).
  destruct Hattrs as (a1 & a2 & -> & (a & -> & Ha) & Ha2).
  destruct Hname as (n1 & n2 & -> & (b & -> & Hb) & Hn2).
  exists (String a a2), body, (String b n2). cbn [append allChars nonEmpty].
  rewrite Ha, Ha2, Hb, Hn2. auto.
Qed.

(** X1.  Every fragment the hook pattern contributes occurs in the text as
    it stands, starts with one of useEffect, useState, useCallback, useMemo
    followed by an opening parenthesis, and ends with a closing parenthesis
    followed by one semicolon or closing brace. *)
Theorem hook_fragments_shape (content f : string) :
  In f (familyBlocks hookPattern content) ->
  hookShaped f /\ occursIn f content.
Proof.
  intros Hf. split; [now apply (hook_shape_of content)|].
  now apply familyBlocks_lang in Hf as [_ Ho].
Qed.

Lemma hook_fragments_shape_witness :
  hookShaped "useState(0);" /\ occursIn "useState(0);" "const [n, set] = useState(0); n".
Proof.
  apply (hook_fragments_shape "const [n, set] = useState(0); n" "useState(0);").
  vm_compute. left. reflexivity.
Defined.

(** X2.  Every fragment the markup pattern contributes occurs in the text
    as it stands and has the form: an opening tag of one or more tag
    characters between angle brackets, any text, and a closing tag whose
    name is one or more word characters.  The two tag names are not
    compared. *)
Theorem markup_fragments_shape (content f : string) :
  In f (familyBlocks markupPattern content) ->
  markupShaped f /\ occursIn f content.
Proof.
  intros Hf. split; [now apply (markup_shape_of content)|].
  now apply familyBlocks_lang in Hf as [_ Ho].
Qed.

Lemma markup_fragments_shape_witness :
  markupShaped "<b class='x'>bold</i>"
  /\ occursIn "<b class='x'>bold</i>" "see <b class='x'>bold</i> here".
Proof.
  apply (markup_fragments_shape "see <b class='x'>bold</i> here" "<b class='x'>bold</i>").
  vm_compute. left. reflexivity.
Defined.

(* ===================================================================== *)
(** ** Fragments are disjoint pieces of the text *)
(* ===================================================================== *)

Lemma Woven_gap g s frags : Woven s frags -> Woven (g ++ s) frags.
Proof.
  intros H. destruct H as [s|gap f s frags H]; [constructor|].
  rewrite <- append_assoc. now constructor.
Qed.

Lemma Woven_totalLength s frags : Woven s frags -> totalLength frags <= String.length s.
Proof.
  induction 1 as [s|gap f s frags H IH]; cbn [totalLength]; [lia|].
  rewrite !length_append. lia.
Qed.

Lemma matchesFrom_Woven r : forall s skip pre rest,
  s = pre ++ rest -> String.length pre = skip ->
  Woven rest (map matched (matchesFrom r s skip)).
Proof.
  induction s as [|a s IH]; intros skip pre rest Hs Hlen.
  - destruct pre; [|discriminate]. cbn in Hs, Hlen. subst rest skip. cbn.
    destruct (matchAt r EmptyString) as [m|] eqn:E; [|constructor].
    apply matchAt_prefix in E as (rest & Hm & _).
    destruct (matched m) as [|b mt] eqn:Em; [|discriminate]. cbn [map]. rewrite Em.
    apply (Woven_cons EmptyString EmptyString EmptyString []). constructor.
  - destruct skip as [|n].
    + destruct pre; [|discriminate]. cbn in Hs. subst rest. cbn [matchesFrom].
      destruct (matchAt r (String a s)) as [m|] eqn:E.
      * cbn [map]. apply matchAt_prefix in E as (rest & Hm & _).
        destruct (matched m) as [|b mt] eqn:Em.
        -- cbn in Hm. subst rest. cbn [String.length Nat.sub].
           apply (Woven_cons EmptyString EmptyString (String a s)).
           apply (Woven_gap (String a EmptyString) s).
           now apply (IH 0 EmptyString s).
        -- cbn in Hm. injection Hm as <- ->.
           cbn [String.length Nat.sub]. rewrite Nat.sub_0_r.
           apply (Woven_cons EmptyString (String a mt) rest).
           now apply (IH (String.length mt) mt rest).
      * apply (Woven_gap (String a EmptyString) s). now apply (IH 0 EmptyString s).
    + destruct pre as [|b pre]; [discriminate|]. cbn in Hs, Hlen.
      injection Hs as <- ->. injection Hlen as Hlen. cbn [matchesFrom].
      now apply (IH n pre rest).
Qed.

(** X3.  The fragments of one pattern family are pieces of the text that
    follow one another in text order without overlapping: the text is a
    gap, the first fragment, a gap, the second fragment, and so on.  Their
    lengths add up to at most the length of the text. *)
Theorem family_fragments_disjoint (pattern : regex) (content : string) :
  Woven content (familyBlocks pattern content)
  /\ totalLength (familyBlocks pattern content) <= String.length content.
Proof.
  assert (H : Woven content (familyBlocks pattern content))
    by now apply (matchesFrom_Woven pattern content 0 EmptyString content).
  split; [exact H | now apply Woven_totalLength].
Qed.

(* ===================================================================== *)
(** ** Text without code marks yields no fragment *)
(* ===================================================================== *)

Lemma hasChar_app p u v : hasChar p (u ++ v) = hasChar p u || hasChar p v.
Proof.
  induction u as [|a u IH]; cbn; [reflexivity|]. now rewrite IH, orb_assoc.
Qed.

Lemma hasChar_occursIn p f content :
  occursIn f content -> hasChar p f = true -> hasChar p content = true.
Proof.
  intros (pre & post & ->) H. rewrite !hasChar_app, H. now rewrite orb_true_r.
Qed.

Lemma hasChar_weaken (p q : ascii -> bool) s :
  (forall a, p a = true -> q a = true) -> hasChar p s = true -> hasChar q s = true.
Proof.
  intros Hpq. induction s as [|a s IH]; cbn; [discriminate|].
  rewrite !orb_true_iff. intros [H|H]; auto.
Qed.

Lemma noBacktick_hasChar s : hasChar codeMark s = false -> noBacktick s = true.
Proof.
  induction s as [|a s IH]; cbn; [reflexivity|].
  rewrite orb_false_iff. intros [Ha Hs]. rewrite (IH Hs), andb_true_r.
  unfold codeMark in Ha. rewrite !orb_false_iff in Ha. unfold notBacktick.
  now destruct Ha as [[-> _] _].
Qed.

Lemma familyBlocks_needs_mark pattern content :
  (forall f, lang pattern f -> hasChar codeMark f = true) ->
  hasChar codeMark content = false ->
  familyBlocks pattern content = [].
Proof.
  intros Hmark Hc. destruct (familyBlocks pattern content) as [|f l] eqn:E; [reflexivity|].
  assert (Hf : In f (familyBlocks pattern content)) by (rewrite E; now left).
  apply familyBlocks_lang in Hf as [Hl Ho].
  rewrite (hasChar_occursIn _ _ _ Ho (Hmark f Hl)) in Hc. discriminate.
Qed.

Lemma terminator_mark u : lang terminator u -> hasChar codeMark u = true.
Proof. intros [-> | ->]; reflexivity. Qed.

Lemma declaration_mark f : lang declarationPattern f -> hasChar codeMark f = true.
Proof.
  cbn [lang declarationPattern]. intros (u1 & u2 & -> & _ & u3 & u4 & -> & _ & Ht).
  rewrite !hasChar_app, (terminator_mark _ Ht). now rewrite !orb_true_r.
Qed.

Lemma hook_mark f : lang hookPattern f -> hasChar codeMark f = true.
Proof.
  cbn [lang hookPattern].
  intros (u1 & u2 & -> & _ & u3 & u4 & -> & _ & u5 & u6 & -> & _ & u7 & u8 & -> & _ & Ht).
  rewrite !hasChar_app, (terminator_mark _ Ht). now rewrite !orb_true_r.
Qed.

Lemma markup_mark f : lang markupPattern f -> hasChar codeMark f = true.
Proof.
  cbn [lang markupPattern].
  intros (u1 & u2 & -> & _ & u3 & u4 & -> & _ & u5 & u6 & -> & -> & _).
  rewrite !hasChar_app. cbn. now rewrite !orb_true_r.
Qed.

(** X4.  A text that holds no backtick, no semicolon, no closing brace and
    no closing angle bracket gives the extractor nothing: each of the four
    patterns needs one of these characters. *)
Theorem extractCodeBlocks_prose (content : string) :
  hasChar codeMark content = false -> extractCodeBlocks content = [].
Proof.
  intros Hc. unfold extractCodeBlocks.
  rewrite (fencedBlocks_noBacktick _ (noBacktick_hasChar _ Hc)). cbn [List.length Nat.eqb].
  rewrite codeLikeBlocks_statementScan. unfold statementScan.
  rewrite (familyBlocks_needs_mark _ _ declaration_mark Hc),
          (familyBlocks_needs_mark _ _ hook_mark Hc),
          (familyBlocks_needs_mark _ _ markup_mark Hc).
  reflexivity.
Qed.

Lemma extractCodeBlocks_prose_witness :
  extractCodeBlocks "Use const and let, call useState(0) and return <div/" = [].
Proof.
  apply (extractCodeBlocks_prose "Use const and let, call useState(0) and return <div/").
  vm_compute. reflexivity.
Defined.

(* ===================================================================== *)
(** ** Fragments are trimmed, and occur in the text *)
(* ===================================================================== *)

Lemma trimStart_suffix s : exists ws, s = ws ++ trimStart s.
Proof.
  induction s as [|a s [ws IH]]; cbn; [now exists EmptyString|].
  destruct (is_space a).
  - exists (String a ws). cbn. now rewrite <- IH.
  - now exists EmptyString.
Qed.

Lemma trimEnd_prefix s : exists ws, s = trimEnd s ++ ws.
Proof.
  induction s as [|a s [ws IH]]; cbn; [now exists EmptyString|].
  destruct (trimEnd s) as [|b t] eqn:E.
  - destruct (is_space a).
    + exists (String a s). reflexivity.
    + exists s. reflexivity.
  - exists ws. cbn. now rewrite IH at 1.
Qed.

Lemma trimStart_head s :
  trimStart s = EmptyString
  \/ exists a r, trimStart s = String a r /\ is_space a = false.
Proof.
  induction s as [|a s IH]; cbn; [now left|].
  destruct (is_space a) eqn:E; [exact IH|]. right. eauto.
Qed.

Lemma trimEnd_head a s :
  trimEnd (String a s) = EmptyString \/ exists r, trimEnd (String a s) = String a r.
Proof.
  cbn. destruct (trimEnd s); [destruct (is_space a)|]; eauto.
Qed.

Lemma trimEnd_idempotent s : trimEnd (trimEnd s) = trimEnd s.
Proof.
  induction s as [|a s IH]; [reflexivity|]. cbn [trimEnd].
  destruct (trimEnd s) as [|b t] eqn:E.
  - destruct (is_space a) eqn:Ea; [reflexivity|]. cbn. now rewrite Ea.
  - change (trimEnd (String a (String b t))) with
      (match trimEnd (String b t) with
       | EmptyString => if is_space a then EmptyString else String a EmptyString
       | String c u => String a (String c u)
       end).
    now rewrite IH.
Qed.

Lemma trim_idempotent s : trim (trim s) = trim s.
Proof.
  unfold trim.
  assert (H : trimStart (trimEnd (trimStart s)) = trimEnd (trimStart s)).
  { destruct (trimStart_head s) as [-> | (a & r & -> & Ha)]; [reflexivity|].
    destruct (trimEnd_head a r) as [-> | (r' & ->)]; [reflexivity|].
    cbn. now rewrite Ha. }
  rewrite H. apply trimEnd_idempotent.
Qed.

Lemma trimEnd_last x t :
  is_space t = false -> trimEnd (x ++ String t EmptyString) = x ++ String t EmptyString.
Proof.
  intros Ht. induction x as [|a x IH]; cbn [append trimEnd].
  - now rewrite Ht.
  - rewrite IH. destruct x; reflexivity.
Qed.

(** A text whose first and last characters are not white space is its own
    trimmed text. *)
Lemma trim_fixed a x t :
  is_space a = false -> is_space t = false ->
  trim (String a (x ++ String t EmptyString)) = String a (x ++ String t EmptyString).
Proof.
  intros Ha Ht. unfold trim. cbn [trimStart]. rewrite Ha.
  apply (trimEnd_last (String a x) t Ht).
Qed.

Lemma trim_occursIn s : occursIn (trim s) s.
Proof.
  unfold trim. destruct (trimStart_suffix s) as [ws Hs].
  destruct (trimEnd_prefix (trimStart s)) as [ws' Ht].
  exists ws, ws'. now rewrite <- Ht.
Qed.

Lemma occursIn_trans f g content : occursIn f g -> occursIn g content -> occursIn f content.
Proof.
  intros (p1 & q1 & ->) (p2 & q2 & ->). exists (p2 ++ p1), (q1 ++ q2).
  now rewrite !append_assoc.
Qed.

Lemma isTerminator_not_space t : isTerminator t = true -> is_space t = false.
Proof.
  unfold isTerminator. rewrite orb_true_iff.
  intros [H|H]; apply Ascii.eqb_eq in H; subst t; reflexivity.
Qed.

(** What the first loop pushes is trimmed and not empty. *)
Lemma pushBlock_trimmed (P : string -> Prop) blocks m :
  (forall b, nonEmpty (trim b) = true -> P (trim b)) ->
  Forall P blocks -> Forall P (pushBlock blocks m).
Proof.
  intros HP Hb. unfold pushBlock.
  destruct (orElse (groups m 1) (groups m 2)) as [block|]; [|exact Hb].
  destruct (nonEmpty block); cbn [andb]; [|exact Hb].
  destruct (nonEmpty (trim block)) eqn:E; [|exact Hb].
  apply Forall_app. split; [exact Hb|]. constructor; [now apply HP | constructor].
Qed.

Lemma fold_left_Forall {X} (P : string -> Prop) (f : list string -> X -> list string) :
  (forall acc x, Forall P acc -> Forall P (f acc x)) ->
  forall l acc, Forall P acc -> Forall P (fold_left f l acc).
Proof.
  intros Hf. induction l as [|x l IH]; intros acc Hacc; cbn; [exact Hacc|].
  apply IH. now apply Hf.
Qed.

Lemma fencedBlocks_trimmed content :
  Forall (fun f => nonEmpty f = true /\ trim f = f) (fencedBlocks content).
Proof.
  unfold fencedBlocks. apply fold_left_Forall; [|constructor].
  intros acc m Hacc. apply pushBlock_trimmed; [|exact Hacc].
  intros b Hb. split; [exact Hb | apply trim_idempotent].
Qed.

Lemma trim_between a kw body t :
  is_space a = false -> is_space t = false ->
  nonEmpty (String a kw ++ body ++ String t EmptyString) = true
  /\ trim (String a kw ++ body ++ String t EmptyString)
     = String a kw ++ body ++ String t EmptyString.
Proof.
  intros Ha Ht. split; [reflexivity|]. cbn [append]. rewrite <- append_assoc.
  now apply trim_fixed.
Qed.

Lemma declarationShaped_trimmed f :
  declarationShaped f -> nonEmpty f = true /\ trim f = f.
Proof.
  intros (kw & body & t & Hin & -> & Ht & _). apply isTerminator_not_space in Ht.
  unfold keywords in Hin. cbn [In] in Hin.
  repeat (destruct Hin as [<- | Hin]; [now apply trim_between|]). contradiction.
Qed.

Lemma hookShaped_trimmed f : hookShaped f -> nonEmpty f = true /\ trim f = f.
Proof.
  intros (name & body & t & Hin & -> & Ht). apply isTerminator_not_space in Ht.
  unfold hookNames in Hin. cbn [In] in Hin.
  replace (name ++ "(" ++ body ++ ")" ++ String t EmptyString)
    with (name ++ ("(" ++ body ++ ")") ++ String t EmptyString)
    by (now rewrite !append_assoc).
  repeat (destruct Hin as [<- | Hin]; [now apply trim_between|]). contradiction.
Qed.

Lemma markupShaped_trimmed f : markupShaped f -> nonEmpty f = true /\ trim f = f.
Proof.
  intros (attrs & body & name & -> & _).
  replace ("<" ++ attrs ++ ">" ++ body ++ "</" ++ name ++ ">")
    with ("<" ++ (attrs ++ ">" ++ body ++ "</" ++ name) ++ ">")
    by (now rewrite !append_assoc).
  now apply trim_between.
Qed.

(** X5.  Every fragment the extractor returns is non-empty and has no white
    space at either end: the fenced and inline spans are pushed trimmed,
    and the matches of the three code-like patterns start with a keyword, a
    hook name or an angle bracket and end with a terminator or an angle
    bracket.  The [trim] the formatter applies to a fragment changes
    nothing. *)
Theorem extractCodeBlocks_trimmed (content f : string) :
  In f (extractCodeBlocks content) -> nonEmpty f = true /\ trim f = f.
Proof.
  unfold extractCodeBlocks.
  pose proof (fencedBlocks_trimmed content) as Hfenced. rewrite Forall_forall in Hfenced.
  destruct (fencedBlocks content) as [|b bs] eqn:E; cbn [List.length Nat.eqb].
  - rewrite codeLikeBlocks_statementScan. unfold statementScan.
    rewrite !in_app_iff. intros [Hf | [Hf | Hf]].
    + apply declarationShaped_trimmed.
      unfold familyBlocks in Hf. apply in_map_iff in Hf as (m & <- & Hm).
      apply matchesFrom_matchAt in Hm as (pre & suf & _ & Hm).
      pose proof (matchAt_declarationPattern suf) as Hd. rewrite Hm in Hd.
      cbn [option_map] in Hd. symmetry in Hd.
      apply declarationAt_shape in Hd as (kw & body & t & rest & Hin & _ & Ht & Hb & Hf).
      exists kw, body, t. auto.
    + apply hookShaped_trimmed. now apply (hook_shape_of content).
    + apply markupShaped_trimmed. now apply (markup_shape_of content).
  - apply Hfenced.
Qed.

Lemma extractCodeBlocks_trimmed_witness :
  nonEmpty "let a = 2;" = true /\ trim "let a = 2;" = "let a = 2;".
Proof.
  apply (extractCodeBlocks_trimmed
           ("see " ++ fence ++ "js" ++ nl ++ "  let a = 2;  " ++ nl ++ fence)
           "let a = 2;").
  vm_compute. left. reflexivity.
Defined.

Lemma capsIn_set inp n v c : occursIn v inp -> capsIn inp c -> capsIn inp (setCapture n v c).
Proof.
  intros Hv Hc m w. unfold setCapture. destruct (m =? n); [|apply Hc].
  intros H. apply Some_eq in H. now subst w.
Qed.

(** Matching at a suffix of [inp] sets capture groups to pieces of [inp]
    only. *)
Lemma rmatch_captures {A} inp r : forall s c (k : string -> Captures -> option A) x,
  rmatch r s c k = Some x ->
  (exists p, inp = p ++ s) -> capsIn inp c ->
  exists u s' c', s = u ++ s' /\ k s' c' = Some x /\ capsIn inp c'.
Proof.
  induction r as [l|p|g p|r IH|r1 IH1 r2 IH2|r1 IH1 r2 IH2|n r IH];
    intros s c k x; cbn [rmatch]; intros H Hs Hc.
  - destruct (stripPrefix l s) as [s'|] eqn:E; [|discriminate].
    apply stripPrefix_spec in E. exists l, s', c. auto.
  - destruct s as [|a s]; [discriminate|]. destruct (p a); [|discriminate].
    exists (String a EmptyString), s, c. auto.
  - destruct g; [apply starGreedy_suffix in H | apply starLazy_suffix in H];
      destruct H as (u & s' & -> & Hk); exists u, s', c; auto.
  - destruct (rmatch r s c k) as [y|] eqn:E.
    + apply Some_eq in H. subst y. now apply (IH _ _ _ _ E).
    + exists EmptyString, s, c. auto.
  - destruct (IH1 _ _ _ _ H Hs Hc) as (u1 & s1 & c1 & -> & H2 & Hc1).
    destruct Hs as [p Hs].
    destruct (IH2 _ _ _ _ H2) as (u2 & s2 & c2 & -> & Hk & Hc2);
      [exists (p ++ u1); now rewrite append_assoc | exact Hc1 |].
    exists (u1 ++ u2), s2, c2. rewrite append_assoc. auto.
  - destruct (rmatch r1 s c k) as [y|] eqn:E.
    + apply Some_eq in H. subst y. now apply (IH1 _ _ _ _ E).
    + now apply (IH2 _ _ _ _ H).
  - destruct (IH _ _ _ _ H Hs Hc) as (u & s' & c' & -> & Hk & Hc').
    eexists u, s', _. repeat split; [exact Hk|].
    apply capsIn_set; [|exact Hc']. rewrite taken_app.
    destruct Hs as [p ->]. now exists p, s'.
Qed.

Lemma matchAt_captures content pre suf m n v :
  content = pre ++ suf -> matchAt codeBlockRegex suf = Some m ->
  groups m n = Some v -> occursIn v content.
Proof.
  intros -> Hm Hg. unfold matchAt in Hm.
  apply (rmatch_captures (pre ++ suf)) in Hm as (u & s' & c' & _ & Hk & Hc);
    [|now exists pre | intros k w; discriminate].
  apply Some_eq in Hk. subst m. cbn in Hg. now apply (Hc n).
Qed.

Lemma fencedBlocks_occur content :
  Forall (fun f => occursIn f content) (fencedBlocks content).
Proof.
  unfold fencedBlocks, execAll.
  assert (Hms : forall m, In m (matchesFrom codeBlockRegex content 0) ->
                forall n v, groups m n = Some v -> occursIn v content).
  { intros m Hm n v Hg. apply matchesFrom_matchAt in Hm as (pre & suf & Hc & Hm).
    now apply (matchAt_captures content pre suf m n v). }
  revert Hms. generalize (matchesFrom codeBlockRegex content 0) as ms.
  assert (Hgen : forall ms acc,
            Forall (fun f => occursIn f content) acc ->
            (forall m, In m ms -> forall n v, groups m n = Some v -> occursIn v content) ->
            Forall (fun f => occursIn f content) (fold_left pushBlock ms acc)).
  { induction ms as [|m ms IH]; intros acc Hacc Hms; cbn; [exact Hacc|].
    apply IH; [|intros m' Hm'; apply Hms; now right].
    unfold pushBlock.
    destruct (orElse (groups m 1) (groups m 2)) as [block|] eqn:Eb; [|exact Hacc].
    destruct (nonEmpty block && nonEmpty (trim block)); [|exact Hacc].
    apply Forall_app. split; [exact Hacc|]. constructor; [|constructor].
    apply (occursIn_trans _ block); [apply trim_occursIn|].
    unfold orElse in Eb.
    destruct (truthy (groups m 1)); [apply (Hms m (or_introl eq_refl) 1 block Eb)
                                    | apply (Hms m (or_introl eq_refl) 2 block Eb)]. }
  intros ms Hms. apply Hgen; [constructor | exact Hms].
Qed.

(** X6.  The extractor invents nothing: every fragment it returns occurs in
    the text character for character (for a fenced or inline span, the span
    between its delimiters with the white space at its ends removed). *)
Theorem extractCodeBlocks_occur (content f : string) :
  In f (extractCodeBlocks content) -> occursIn f content.
Proof.
  unfold extractCodeBlocks.
  pose proof (fencedBlocks_occur content) as Hfenced. rewrite Forall_forall in Hfenced.
  destruct (fencedBlocks content) as [|b bs] eqn:E; cbn [List.length Nat.eqb].
  - rewrite codeLikeBlocks_statementScan. unfold statementScan.
    rewrite !in_app_iff. intros [Hf | [Hf | Hf]];
      now apply familyBlocks_lang in Hf as [_ Ho].
  - apply Hfenced.
Qed.

Lemma extractCodeBlocks_occur_witness :
  occursIn "let a = 2;" ("see " ++ fence ++ "js" ++ nl ++ "  let a = 2;  " ++ nl ++ fence).
Proof.
  apply (extractCodeBlocks_occur
           ("see " ++ fence ++ "js" ++ nl ++ "  let a = 2;  " ++ nl ++ fence)
           "let a = 2;").
  vm_compute. left. reflexivity.
Defined.

(* ===================================================================== *)
(** ** One fenced block, one inline span *)
(* ===================================================================== *)

Lemma stripPrefix_app p r : stripPrefix p (p ++ r) = Some r.
Proof. now apply stripPrefix_spec. Qed.

Lemma matchesFrom_skip r u rest :
  matchesFrom r (u ++ rest) (String.length u) = matchesFrom r rest 0.
Proof. induction u as [|a u IH]; [reflexivity | exact IH]. Qed.

(** After a non-empty match the iteration resumes behind it. *)
Lemma matchesFrom_hit r a mt rest m :
  matchAt r (String a (mt ++ rest)) = Some m -> matched m = String a mt ->
  matchesFrom r (String a (mt ++ rest)) 0 = m :: matchesFrom r rest 0.
Proof.
  intros Hm Hmt. cbn [matchesFrom]. rewrite Hm, Hmt. cbn [String.length Nat.sub].
  rewrite Nat.sub_0_r. now rewrite matchesFrom_skip.
Qed.

Lemma matchesFrom_codeBlockRegex_prefix pre s :
  noBacktick pre = true ->
  matchesFrom codeBlockRegex (pre ++ s) 0 = matchesFrom codeBlockRegex s 0.
Proof.
  induction pre as [|a pre IH]; [reflexivity|]. cbn [noBacktick append matchesFrom].
  intros H. apply andb_true_iff in H as [Ha Hpre].
  rewrite (matchAt_codeBlockRegex_backtick a _ Ha). auto.
Qed.

Lemma matchesFrom_codeBlockRegex_noBacktick s :
  noBacktick s = true -> matchesFrom codeBlockRegex s 0 = [].
Proof.
  intros H. rewrite <- (append_nil_r s), (matchesFrom_codeBlockRegex_prefix _ _ H).
  reflexivity.
Qed.

(** A greedy run over [u ++ r] stops where the class stops, when the
    continuation accepts there. *)
Lemma starGreedy_run {A} p u r (k : string -> option A) x :
  allChars p u = true ->
  match r with EmptyString => true | String b _ => negb (p b) end = true ->
  k r = Some x ->
  starGreedy p (u ++ r) k = Some x.
Proof.
  intros Hu Hr Hk. induction u as [|a u IH]; cbn [append].
  - destruct r as [|b r]; cbn [starGreedy]; [exact Hk|].
    apply negb_true_iff in Hr. now rewrite Hr.
  - cbn in Hu. apply andb_true_iff in Hu as [Ha Hu]. cbn [starGreedy].
    now rewrite Ha, (IH Hu).
Qed.

(** It fails when the continuation refuses every place of the run. *)
Lemma starGreedy_refused {A} p u r (k : string -> option A) :
  allChars p u = true ->
  match r with EmptyString => true | String b _ => negb (p b) end = true ->
  (forall v, allChars p v = true -> k (v ++ r) = None) ->
  starGreedy p (u ++ r) k = None.
Proof.
  intros Hu Hr Hk. induction u as [|a u IH]; cbn [append].
  - destruct r as [|b r]; cbn [starGreedy]; [exact (Hk EmptyString eq_refl)|].
    apply negb_true_iff in Hr. rewrite Hr. exact (Hk EmptyString eq_refl).
  - pose proof Hu as Hau. cbn in Hu. apply andb_true_iff in Hu as [Ha Hu]. cbn [starGreedy].
    rewrite Ha, (IH Hu). exact (Hk (String a u) Hau).
Qed.

(** A lazy run walks over text that the continuation refuses. *)
Lemma starLazy_skip {A} x r (k : string -> option A) :
  (forall a s, notBacktick a = true -> k (String a s) = None) ->
  noBacktick x = true ->
  starLazy anyChar (x ++ r) k = starLazy anyChar r k.
Proof.
  intros Hk. induction x as [|a x IH]; [reflexivity|]. cbn [noBacktick append].
  intros H. apply andb_true_iff in H as [Ha Hx].
  rewrite starLazy_unfold, (Hk a _ Ha). cbn [anyChar]. auto.
Qed.

Lemma stripPrefix_fence_refused a s : notBacktick a = true -> stripPrefix fence (String a s) = None.
Proof.
  unfold notBacktick. rewrite negb_true_iff, Ascii.eqb_sym. intros H.
  unfold fence. rewrite stripPrefix_cons, H. reflexivity.
Qed.

(** The capture of a fenced block runs to the closing fence. *)
Lemma capture_to_fence {A} x post c (kf : string -> Captures -> option A) :
  noBacktick x = true ->
  (forall c', kf post c' <> None) ->
  rmatch (Seq (Cap 1 (Star false anyChar)) (Lit fence)) (x ++ fence ++ post) c kf
  = kf post (setCapture 1 x c).
Proof.
  intros Hx Hkf. cbn [rmatch]. rewrite starLazy_skip; [|intros a s Ha|exact Hx].
  - rewrite starLazy_unfold, stripPrefix_app, taken_app.
    destruct (kf post (setCapture 1 x c)) eqn:E; [reflexivity|]. now apply Hkf in E.
  - now rewrite (stripPrefix_fence_refused a s Ha).
Qed.

Lemma wordRun_spec s :
  s = fst (wordRun s) ++ snd (wordRun s)
  /\ allChars is_word (fst (wordRun s)) = true
  /\ match snd (wordRun s) with
     | EmptyString => true
     | String b _ => negb (is_word b)
     end = true.
Proof.
  induction s as [|a s (IH1 & IH2 & IH3)]; cbn [wordRun]; [auto|].
  destruct (is_word a) eqn:Ea.
  - destruct (wordRun s) as [w r]. cbn [fst snd] in *. cbn [append allChars].
    rewrite Ea, IH2. repeat split; [now rewrite IH1 at 1 | exact IH3].
  - cbn [fst snd append allChars]. rewrite Ea. auto.
Qed.

Lemma noBacktick_app u v : noBacktick (u ++ v) = noBacktick u && noBacktick v.
Proof.
  induction u as [|a u IH]; cbn; [reflexivity|]. now rewrite IH, andb_assoc.
Qed.

Lemma dropLanguageTag_noBacktick inner :
  noBacktick inner = true -> noBacktick (dropLanguageTag inner) = true.
Proof.
  intros H. unfold dropLanguageTag. destruct (wordRun_spec inner) as (Hs & _ & _).
  destruct (wordRun inner) as [[|a w] [|b r]]; try exact H.
  destruct (Ascii.eqb b LF); [|exact H].
  cbn [fst snd] in Hs. rewrite Hs, noBacktick_app in H.
  apply andb_true_iff in H as [_ H]. cbn in H. now apply andb_true_iff in H as [_ H].
Qed.

(** The line feed is refused after word characters and before anything that
    is not a line feed. *)
Lemma stripPrefix_nl_refused v r :
  allChars is_word v = true ->
  match r with EmptyString => true | String b _ => negb (Ascii.eqb b LF) end = true ->
  stripPrefix nl (v ++ r) = None.
Proof.
  intros Hv Hr. unfold nl. destruct v as [|a v]; cbn [append].
  - destruct r as [|b r]; [reflexivity|]. rewrite stripPrefix_cons.
    apply negb_true_iff in Hr. now rewrite Ascii.eqb_sym, Hr.
  - rewrite stripPrefix_cons. cbn in Hv. apply andb_true_iff in Hv as [Ha _].
    destruct (Ascii.eqb_spec LF a) as [<-|]; [discriminate Ha | reflexivity].
Qed.

(** The optional language line: taken when the inner text starts with word
    characters ended by a line feed, skipped otherwise. *)
Lemma language_tag {A} inner post c (kf : string -> Captures -> option A) :
  noBacktick inner = true ->
  (forall c', kf post c' <> None) ->
  rmatch (Seq (Opt (Seq (Plus is_word) (Lit nl)))
              (Seq (Cap 1 (Star false anyChar)) (Lit fence)))
         (inner ++ fence ++ post) c kf
  = kf post (setCapture 1 (dropLanguageTag inner) c).
Proof.
  intros Hnb Hkf.
  pose proof (dropLanguageTag_noBacktick inner Hnb) as Hdrop.
  set (K := fun s' c' => rmatch (Seq (Cap 1 (Star false anyChar)) (Lit fence)) s' c' kf).
  change (rmatch (Seq (Opt (Seq (Plus is_word) (Lit nl)))
                      (Seq (Cap 1 (Star false anyChar)) (Lit fence)))
                 (inner ++ fence ++ post) c kf)
    with (match rmatch (Seq (Plus is_word) (Lit nl)) (inner ++ fence ++ post) c K with
          | Some x => Some x
          | None => K (inner ++ fence ++ post) c
          end).
  assert (Hskip : rmatch (Seq (Plus is_word) (Lit nl)) (inner ++ fence ++ post) c K = None ->
                  match rmatch (Seq (Plus is_word) (Lit nl)) (inner ++ fence ++ post) c K with
                  | Some x => Some x
                  | None => K (inner ++ fence ++ post) c
                  end = kf post (setCapture 1 inner c)).
  { intros ->. unfold K. now apply capture_to_fence. }
  unfold dropLanguageTag in *. destruct (wordRun_spec inner) as (Hs & Hw & Hr).
  destruct (wordRun inner) as [w r]. cbn [fst snd] in Hs, Hw, Hr.
  destruct w as [|a w].
  - (* no word character at the start *)
    apply Hskip. cbn [append] in Hs. subst inner. unfold Plus. cbn [rmatch].
    destruct r as [|b r]; cbn [append]; [reflexivity|].
    apply negb_true_iff in Hr. now rewrite Hr.
  - cbn in Hw. apply andb_true_iff in Hw as [Ha Hw].
    assert (Hrun : rmatch (Seq (Plus is_word) (Lit nl)) (inner ++ fence ++ post) c K
                   = starGreedy is_word (w ++ r ++ fence ++ post)
                       (fun s3 => match stripPrefix nl s3 with
                                  | Some s4 => K s4 c
                                  | None => None
                                  end)).
    { rewrite Hs. unfold Plus. cbn [rmatch append]. rewrite Ha.
      now rewrite !append_assoc. }
    destruct r as [|b r].
    + (* the run reaches the closing fence *)
      apply Hskip. rewrite Hrun.
      apply starGreedy_refused; [exact Hw | reflexivity |].
      intros v Hv. now rewrite stripPrefix_nl_refused.
    + destruct (Ascii.eqb_spec b LF) as [->|Hb].
      * (* a language line *)
        rewrite Hrun. cbn [append].
        destruct (kf post (setCapture 1 r c)) as [x|] eqn:Ex; [|now apply Hkf in Ex].
        rewrite (starGreedy_run is_word w _ _ x Hw); [reflexivity | reflexivity |].
        change (String LF (r ++ fence ++ post)) with (nl ++ r ++ fence ++ post).
        rewrite stripPrefix_app. unfold K. rewrite capture_to_fence; auto.
      * (* word characters ended by something else *)
        apply Hskip. rewrite Hrun.
        apply starGreedy_refused; [exact Hw | exact Hr |].
        intros v Hv. rewrite stripPrefix_nl_refused; [reflexivity | exact Hv |].
        cbn [append]. apply negb_true_iff. now apply Ascii.eqb_neq.
Qed.

Lemma rmatch_Seq_Lit {A} l r s c (k : string -> Captures -> option A) :
  rmatch (Seq (Lit l) r) (l ++ s) c k = rmatch r s c k.
Proof. cbn [rmatch]. now rewrite stripPrefix_app. Qed.

Lemma nonEmpty_trim s : nonEmpty (trim s) = true -> nonEmpty s = true.
Proof. destruct s; [discriminate | reflexivity]. Qed.

Lemma allChars_notBacktick s : noBacktick s = true -> allChars notBacktick s = true.
Proof. induction s as [|a s IH]; cbn; [reflexivity|]. now destruct (notBacktick a). Qed.

(** The match of the block pattern at a fenced block. *)
Lemma matchAt_fenced inner post :
  noBacktick inner = true ->
  matchAt codeBlockRegex (fence ++ inner ++ fence ++ post)
  = Some (mkMatch (fence ++ inner ++ fence)
                  (setCapture 1 (dropLanguageTag inner) noCaptures)).
Proof.
  intros Hnb. unfold matchAt, codeBlockRegex.
  match goal with
  | |- rmatch (Alt ?r1 ?r2) ?s ?c ?k = _ =>
      change (rmatch (Alt r1 r2) s c k)
        with (match rmatch r1 s c k with Some x => Some x | None => rmatch r2 s c k end)
  end.
  rewrite rmatch_Seq_Lit, language_tag; [|exact Hnb|discriminate].
  replace (fence ++ inner ++ fence ++ post) with ((fence ++ inner ++ fence) ++ post)
    by (now rewrite !append_assoc).
  now rewrite taken_app.
Qed.

(** The match of the block pattern at an inline span. *)
Lemma matchAt_inline b body post :
  noBacktick (String b body) = true ->
  matchAt codeBlockRegex (tick ++ String b body ++ tick ++ post)
  = Some (mkMatch (tick ++ String b body ++ tick)
                  (setCapture 2 (String b body) noCaptures)).
Proof.
  intros Hnb. cbn [noBacktick] in Hnb. apply andb_true_iff in Hnb as [Hb Hbody].
  unfold matchAt, codeBlockRegex.
  match goal with
  | |- rmatch (Alt ?r1 ?r2) ?s ?c ?k = _ =>
      change (rmatch (Alt r1 r2) s c k)
        with (match rmatch r1 s c k with Some x => Some x | None => rmatch r2 s c k end)
  end.
  assert (Hfirst : forall r k,
            rmatch (Seq (Lit fence) r) (tick ++ String b body ++ tick ++ post)
                   noCaptures k = @None Match).
  { intros r k. cbn [rmatch]. unfold fence, tick. cbn [append].
    rewrite !stripPrefix_cons. unfold notBacktick in Hb.
    apply negb_true_iff in Hb. rewrite Ascii.eqb_sym in Hb. rewrite Hb.
    now rewrite Ascii.eqb_refl. }
  rewrite Hfirst, rmatch_Seq_Lit. unfold Plus. cbn [rmatch append]. rewrite Hb.
  erewrite (starGreedy_run notBacktick body (tick ++ post));
    [reflexivity | now apply allChars_notBacktick | reflexivity |].
  rewrite stripPrefix_app.
  change (String b (body ++ tick ++ post)) with (String b body ++ tick ++ post).
  rewrite taken_app.
  replace (tick ++ String b body ++ tick ++ post)
    with ((tick ++ String b body ++ tick) ++ post) by (now rewrite !append_assoc).
  now rewrite taken_app.
Qed.

(** X7.  One fenced block in a text without other backticks gives exactly
    one fragment: the text between the fences, without its language line,
    trimmed.  A first line made of word characters only is taken for the
    language line and dropped, whether or not it names a language.  (The
    fragment must not be blank.) *)
Theorem extractCodeBlocks_fenced (pre inner post : string) :
  noBacktick pre = true -> noBacktick inner = true -> noBacktick post = true ->
  nonEmpty (trim (dropLanguageTag inner)) = true ->
  extractCodeBlocks (pre ++ fence ++ inner ++ fence ++ post)
  = [trim (dropLanguageTag inner)].
Proof.
  intros Hpre Hinner Hpost Hne.
  assert (Hblocks : fencedBlocks (pre ++ fence ++ inner ++ fence ++ post)
                    = [trim (dropLanguageTag inner)]).
  { unfold fencedBlocks, execAll. rewrite (matchesFrom_codeBlockRegex_prefix _ _ Hpre).
    pose proof (matchAt_fenced inner post Hinner) as Hm.
    replace (fence ++ inner ++ fence ++ post)
      with (String backtick ((String backtick (String backtick EmptyString)
                              ++ inner ++ fence) ++ post)) in *
      by (unfold fence; cbn [append]; now rewrite !append_assoc).
    rewrite (matchesFrom_hit _ _ _ _ _ Hm)
      by (cbn [matched]; unfold fence; reflexivity).
    rewrite (matchesFrom_codeBlockRegex_noBacktick _ Hpost).
    cbn [fold_left]. unfold pushBlock. cbn [groups]. unfold setCapture at 1.
    cbn [Nat.eqb]. unfold orElse, truthy.
    rewrite (nonEmpty_trim _ Hne). cbv beta iota.
    rewrite (nonEmpty_trim _ Hne), Hne. reflexivity. }
  unfold extractCodeBlocks. rewrite Hblocks. reflexivity.
Qed.

Lemma extractCodeBlocks_fenced_witness :
  extractCodeBlocks ("Run " ++ fence ++ ("return" ++ nl ++ " x + 1 ") ++ fence ++ " now")
  = [trim (dropLanguageTag ("return" ++ nl ++ " x + 1 "))].
Proof.
  apply (extractCodeBlocks_fenced "Run " ("return" ++ nl ++ " x + 1 ") " now");
    reflexivity.
Defined.

(** X8.  One inline span in a text without other backticks gives exactly
    one fragment: the text between the two backticks, trimmed.  (The span
    must not be blank.) *)
Theorem extractCodeBlocks_inline (pre body post : string) :
  noBacktick pre = true -> noBacktick body = true -> noBacktick post = true ->
  nonEmpty (trim body) = true ->
  extractCodeBlocks (pre ++ tick ++ body ++ tick ++ post) = [trim body].
Proof.
  intros Hpre Hbody Hpost Hne.
  destruct body as [|b body]; [discriminate Hne|].
  assert (Hblocks : fencedBlocks (pre ++ tick ++ String b body ++ tick ++ post)
                    = [trim (String b body)]).
  { unfold fencedBlocks, execAll. rewrite (matchesFrom_codeBlockRegex_prefix _ _ Hpre).
    pose proof (matchAt_inline b body post Hbody) as Hm.
    replace (tick ++ String b body ++ tick ++ post)
      with (String backtick ((String b body ++ tick) ++ post)) in *
      by (unfold tick; cbn [append]; now rewrite !append_assoc).
    rewrite (matchesFrom_hit _ _ _ _ _ Hm)
      by (cbn [matched]; unfold tick; reflexivity).
    rewrite (matchesFrom_codeBlockRegex_noBacktick _ Hpost).
    cbn [fold_left]. unfold pushBlock. cbn [groups]. unfold setCapture.
    cbn [Nat.eqb noCaptures]. unfold orElse, truthy. unfold noCaptures.
    cbn [nonEmpty]. rewrite Hne. reflexivity. }
  unfold extractCodeBlocks. rewrite Hblocks. reflexivity.
Qed.

Lemma extractCodeBlocks_inline_witness :
  extractCodeBlocks ("call " ++ tick ++ " useState(0) " ++ tick ++ " first")
  = [trim " useState(0) "].
Proof.
  apply (extractCodeBlocks_inline "call " " useState(0) " " first"); reflexivity.
Defined.

(* ===================================================================== *)
(** ** The report, block by block *)
(* ===================================================================== *)

Lemma pushContent_lines label result acc :
  pushContent label result acc = (acc ++ contentLines label result)%list.
Proof.
  unfold pushContent, contentLines, push.
  destruct (Tavily.content result) as [c|]; [destruct (nonEmpty c)|];
    rewrite <- ?app_assoc, ?app_nil_r; reflexivity.
Qed.

Lemma fold_push_code blocks : forall acc,
  fold_left (fun responseText block =>
               push (trim block) (push (nl ++ "Code:") responseText)) blocks acc
  = (acc ++ flat_map (fun block => [(nl ++ "Code:")%string; trim block]) blocks)%list.
Proof.
  induction blocks as [|b blocks IH]; intros acc; cbn [fold_left flat_map].
  - now rewrite app_nil_r.
  - rewrite IH. unfold push. now rewrite <- !app_assoc.
Qed.

Lemma pushCodeExample_lines result index acc :
  pushCodeExample result index acc = (acc ++ blockLines code index result)%list.
Proof.
  unfold pushCodeExample, blockLines, fragmentsOf.
  rewrite pushContent_lines. unfold push.
  assert (Hcode : forall acc0,
    match rawContent result with
    | Some raw =>
        if nonEmpty raw
        then if 0 <? List.length (extractCodeBlocks raw)
             then fold_left (fun responseText block =>
                               (responseText ++ [(nl ++ "Code:")%string])
                               ++ [trim block])%list
                            (extractCodeBlocks raw) acc0
             else acc0
        else acc0
    | None => acc0
    end
    = (acc0 ++ flat_map (fun block => [(nl ++ "Code:")%string; trim block])
                 match rawContent result with
                 | Some raw => if nonEmpty raw then extractCodeBlocks raw else []
                 | None => []
                 end)%list).
  { intros acc0. destruct (rawContent result) as [raw|]; [|now rewrite app_nil_r].
    destruct (nonEmpty raw); [|now rewrite app_nil_r].
    destruct (extractCodeBlocks raw) as [|b bs] eqn:E; [now rewrite app_nil_r|].
    cbn [List.length Nat.ltb Nat.leb]. apply (fold_push_code (b :: bs) acc0). }
  rewrite Hcode. now rewrite <- !app_assoc.
Qed.

Lemma pushTitled_docs_lines result index acc :
  pushTitled "Details:" result index acc = (acc ++ blockLines docs index result)%list.
Proof.
  unfold pushTitled, blockLines. rewrite pushContent_lines. unfold push.
  now rewrite <- !app_assoc.
Qed.

Lemma pushTitled_learn_lines result index acc :
  pushTitled "Key Points:" result index acc = (acc ++ blockLines learn index result)%list.
Proof.
  unfold pushTitled, blockLines. rewrite pushContent_lines. unfold push.
  now rewrite <- !app_assoc.
Qed.

Lemma pushSolution_lines result index acc :
  pushSolution result index acc = (acc ++ blockLines debug index result)%list.
Proof.
  unfold pushSolution, blockLines. rewrite pushContent_lines. unfold push.
  now rewrite <- !app_assoc.
Qed.

Lemma forEachFrom_blocks f c :
  (forall result index acc, f result index acc = (acc ++ blockLines c index result)%list) ->
  forall l start acc, forEachFrom start f l acc = (acc ++ blocksFrom c start l)%list.
Proof.
  intros Hf. induction l as [|r l IH]; intros start acc; cbn [forEachFrom blocksFrom].
  - now rewrite app_nil_r.
  - now rewrite IH, Hf, <- app_assoc.
Qed.

Lemma pushResults_blocks f c results acc :
  (forall result index acc, f result index acc = (acc ++ blockLines c index result)%list) ->
  pushResults f results acc
  = (acc ++ blocksFrom c 0 match Tavily.results results with
                           | Some l => l
                           | None => []
                           end)%list.
Proof.
  intros Hf. unfold pushResults, forEach.
  destruct (Tavily.results results); [now apply forEachFrom_blocks | now rewrite app_nil_r].
Qed.

Lemma pushHeading_lines c results acc :
  pushHeading (header c) (overview c) results acc
  = (acc ++ (header c ++ nl)%string :: answerLines c results)%list.
Proof.
  unfold pushHeading, answerLines, push.
  destruct (answer results) as [a|]; [destruct (nonEmpty a)|];
    rewrite <- ?app_assoc; reflexivity.
Qed.

Lemma formatLines_reportLines results c acc :
  formatLines results (tag c) acc = (acc ++ reportLines c results)%list.
Proof.
  unfold reportLines.
  destruct c; unfold formatLines; cbn [tag String.eqb Ascii.eqb Bool.eqb].
  - rewrite (pushResults_blocks _ code) by apply pushCodeExample_lines.
    rewrite (pushHeading_lines code). now rewrite <- app_assoc.
  - rewrite (pushResults_blocks _ docs) by apply pushTitled_docs_lines.
    rewrite (pushHeading_lines docs). now rewrite <- app_assoc.
  - rewrite (pushResults_blocks _ debug) by apply pushSolution_lines.
    rewrite (pushHeading_lines debug). now rewrite <- app_assoc.
  - rewrite (pushResults_blocks _ learn) by apply pushTitled_learn_lines.
    rewrite (pushHeading_lines learn). now rewrite <- app_assoc.
Qed.

Lemma processSearchResults_lines results c w :
  processSearchResults (Some results) (tag c) w
  = (inr (textContent (join nl (reportLines c results))), w).
Proof.
  unfold processSearchResults. rewrite formatLines_reportLines. reflexivity.
Qed.

(** X9.  In each of the four categories the report of a present result set
    is, joined by line feeds: the header, the answer section when the
    answer is present and not empty, then one block per result in the
    order the provider gave them, the block at position [i] numbered
    [i + 1] (code and debug); a missing or non-array [results] contributes
    no block. *)
Theorem processSearchResults_report (results : SearchResponse) (c : SearchCategory)
        (w : World) :
  processSearchResults (Some results) (tag c) w
  = (inr (textContent (join nl
       ((header c ++ nl)%string :: answerLines c results
        ++ blocksFrom c 0 match Tavily.results results with
                          | Some l => l
                          | None => []
                          end)%list)), w).
Proof.
  unfold processSearchResults.
  rewrite (formatLines_reportLines results c []). unfold reportLines. reflexivity.
Qed.

Lemma blocksFrom_ext c f :
  (forall index result, blockLines c index (f result) = blockLines c index result) ->
  forall l start, blocksFrom c start (map f l) = blocksFrom c start l.
Proof.
  intros Hf. induction l as [|r l IH]; intros start; cbn [map blocksFrom]; [reflexivity|].
  now rewrite Hf, IH.
Qed.

Lemma reportLines_ext c f results :
  (forall index result, blockLines c index (f result) = blockLines c index result) ->
  reportLines c (mapResults f results) = reportLines c results.
Proof.
  intros Hf. unfold reportLines, mapResults, answerLines. cbn [answer Tavily.results].
  destruct (Tavily.results results) as [l|]; cbn [option_map]; [|reflexivity].
  now rewrite (blocksFrom_ext c f Hf).
Qed.

(** X10.  Outside the code category the raw content of the results plays no
    part: changing or removing it in any result leaves the report as it
    is. *)
Theorem processSearchResults_ignores_rawContent
        (raw : SearchResult -> option string) (results : SearchResponse)
        (c : SearchCategory) (w : World) :
  c <> code ->
  processSearchResults
    (Some (mapResults (fun result => withRawContent (raw result) result) results))
    (tag c) w
  = processSearchResults (Some results) (tag c) w.
Proof.
  intros Hc. rewrite !processSearchResults_lines, reportLines_ext; [reflexivity|].
  intros index result. destruct c; [contradiction | reflexivity..].
Qed.

Lemma processSearchResults_ignores_rawContent_witness :
  processSearchResults
    (Some (mapResults (fun result => withRawContent (Some (title result)) result)
                      docsResponse)) (tag docs) emptyWorld
  = processSearchResults (Some docsResponse) (tag docs) emptyWorld.
Proof.
  apply (processSearchResults_ignores_rawContent
           (fun result => Some (title result)) docsResponse docs emptyWorld).
  discriminate.
Defined.

(** X11.  In the code category the title of the results plays no part:
    changing it in any result leaves the report as it is. *)
Theorem processSearchResults_code_ignores_title
        (t : SearchResult -> string) (results : SearchResponse) (w : World) :
  processSearchResults
    (Some (mapResults (fun result => withTitle (t result) result) results)) "code" w
  = processSearchResults (Some results) "code" w.
Proof.
  rewrite !(processSearchResults_lines _ code), reportLines_ext; reflexivity.
Qed.

(** X12.  For a present result set, the formatter returns the "completed
    but no relevant information" text exactly when the type is none of the
    four category tags. *)
Theorem processSearchResults_fallback_iff
        (results : SearchResponse) (type : string) (w : World) :
  processSearchResults (Some results) type w
    = (inr (textContent nothingRelevantText), w)
  <-> ~ recognized type.
Proof.
  split.
  - intros H [c ->]. rewrite processSearchResults_lines in H.
    destruct (join_head nl (header c ++ nl) (List.tl (reportLines c results)))
      as [rest Hrest].
    unfold reportLines in H, Hrest. cbn [List.tl] in Hrest. rewrite Hrest in H.
    destruct c; cbn in H; discriminate H.
  - apply processSearchResults_unrecognized.
Qed.

(* ===================================================================== *)
(** ** The handler, case by case *)
(* ===================================================================== *)

Lemma recognized_advertised type : recognized type <-> In type advertisedTypes.
Proof.
  unfold advertisedTypes. cbn. split.
  - intros [[] ->]; cbn; auto.
  - intros [<- | [<- | [<- | [<- | []]]]];
      [exists code | exists docs | exists debug | exists learn]; reflexivity.
Qed.


Lemma onError_nullish w : onError Nullish w = (inl (TypeError MessageOfNullish), w).
Proof. reflexivity. Qed.

Lemma onError_other printed w :
  onError (MessageNotString printed) w
  = (inl (TypeError ToLowerCaseNotAFunction),
     {| searchCalls := searchCalls w;
        stderr := stderr w ++ ["Search error: " ++ printed] |}).
Proof. reflexivity. Qed.





(** A request that asks for no provider call is answered with a text that
    is not empty, and leaves the world as it was. *)
Lemma callTool_no_request provider name args w :
  (forall query c, ~ requests name args query c) ->
  exists t, nonEmpty t = true
            /\ callTool provider name args w = (inr {| content := [textContent t] |}, w).
Proof.
  intros Hno. unfold callTool.
  destruct (String.eqb_spec name "search") as [->|Hname]; cbn [negb].
  - destruct args as [a|]; [|exists invalidArgumentsText; split; reflexivity].
    destruct (Args.query a) as [query|] eqn:Hq;
      [|exists invalidArgumentsText; split; reflexivity].
    destruct (recognized_dec (typeOf (Args.type a))) as [[c Hc]|Hn].
    + exfalso. apply (Hno query c). split; [reflexivity|]. now exists a.
    + exists noResultsText. split; [reflexivity|].
      unfold tryCatch, bind. now rewrite (searchByType_unrecognized _ _ _ _ Hn).
  - exists (unknownToolText name). split; reflexivity.
Qed.


(** A [search] call with a query and a recognized type, by the outcome of
    the provider call. *)
Lemma callTool_recognized provider a query c w :
  Args.query a = Some query -> typeOf (Args.type a) = tag c ->
  callTool provider "search" (Some a) w
  = match provider query (policyFor c) with
    | inl error => onError error (afterCall w query (policyFor c))
    | inr results =>
        match processSearchResults results (tag c) (afterCall w query (policyFor c)) with
        | (inr t, w') => (inr {| content := [t] |}, w')
        | (inl e, w') => onError e w'
        end
    end.
Proof.
  intros Hq Ht. unfold callTool, tryCatch, bind.
  cbn [negb String.eqb Ascii.eqb Bool.eqb]. rewrite Hq, Ht, searchByType_tag.
  unfold tvlySearch, afterCall.
  destruct (provider query (policyFor c)) as [e|r]; [reflexivity|].
  destruct (processSearchResults_pure r (tag c)) as [t Hp]. rewrite !Hp. reflexivity.
Qed.

Lemma callTool_not_recognized provider a query w :
  Args.query a = Some query -> ~ recognized (typeOf (Args.type a)) ->
  callTool provider "search" (Some a) w
  = (inr {| content := [textContent noResultsText] |}, w).
Proof.
  intros Hq Hn. unfold callTool, tryCatch, bind.
  cbn [negb String.eqb Ascii.eqb Bool.eqb]. rewrite Hq.
  now rewrite (searchByType_unrecognized _ _ _ _ Hn).
Qed.


(** X14.  When the request asks for a provider call (the tool is [search],
    the arguments carry a query, the type is a category tag), the handler
    makes exactly that call, once: the request's query with the options of
    the request's category is added at the end of the log.  Otherwise the
    log is left as it was.  The requests that ask for a call are those
    whose type ([args.type || "code"]) is one of the types the tool listing
    advertises. *)
Theorem callTool_provider_calls provider (name : string) (args : option Args.t)
        (w : World) :
  (forall query c,
     requests name args query c ->
     searchCalls (snd (callTool provider name args w))
     = (searchCalls w ++ [(query, policyFor c)])%list)
  /\ ((forall query c, ~ requests name args query c) ->
      searchCalls (snd (callTool provider name args w)) = searchCalls w)
  /\ ((exists query c, requests name args query c) <->
      name = "search"
      /\ exists a query, args = Some a /\ Args.query a = Some query
                         /\ In (typeOf (Args.type a)) advertisedTypes).
Proof.
  split; [|split].
  - intros query c (-> & a & -> & Hq & Hc).
    rewrite (callTool_recognized _ _ _ _ _ Hq Hc).
    destruct (provider query (policyFor c)) as [error|r].
    + now rewrite onError_searchCalls.
    + destruct (processSearchResults_pure r (tag c)) as [t ->]. reflexivity.
  - intros Hno. now destruct (callTool_no_request provider name args w Hno) as (t & _ & ->).
  - split.
    + intros (query & c & Hn & a & Ha & Hq & Hc). split; [exact Hn|].
      exists a, query. repeat split; auto. apply recognized_advertised. now exists c.
    + intros (Hn & a & query & Ha & Hq & Hin).
      apply recognized_advertised in Hin as [c Hc].
      exists query, c. split; [exact Hn|]. now exists a.
Qed.

(** X15.  A call without a type, or with an empty one, is the call with the
    default type the tool listing advertises: same response, same provider
    call. *)
Theorem callTool_default_type provider (a : Args.t) (w : World) :
  truthy (Args.type a) = false ->
  callTool provider "search" (Some a) w
  = callTool provider "search"
      (Some {| Args.query := Args.query a;
               Args.type := Some (Tool.typeDefault (Tool.inputSchema searchTool)) |}) w.
Proof.
  intros Ht. unfold callTool. cbn [negb String.eqb Ascii.eqb Bool.eqb Args.query Args.type].
  assert (Hd : typeOf (Args.type a) = "code") by (unfold typeOf, orElse; now rewrite Ht).
  rewrite Hd. reflexivity.
Qed.

Lemma callTool_default_type_witness :
  callTool quietProvider "search"
    (Some {| Args.query := Some "react hooks"; Args.type := Some EmptyString |}) emptyWorld
  = callTool quietProvider "search"
      (Some {| Args.query := Some "react hooks";
               Args.type := Some (Tool.typeDefault (Tool.inputSchema searchTool)) |})
      emptyWorld.
Proof.
  apply (callTool_default_type quietProvider
           {| Args.query := Some "react hooks"; Args.type := Some EmptyString |} emptyWorld).
  reflexivity.
Defined.


(** X17.  When the provider call of a [search] request is rejected, the
    world after the request is the world before with that one call at the
    end of the log and, when the failure carries a message, one more line
    on the error stream, [Search error:] and the message; nothing else
    changes and the call is not made again.  A failure whose message is not
    a string is printed the same way, and then rejects the handler; [null]
    and [undefined] reject it before anything is written. *)
Theorem callTool_failure_world provider (a : Args.t) (query : string)
        (c : SearchCategory) (error : Thrown) (w : World) :
  Args.query a = Some query -> typeOf (Args.type a) = tag c ->
  provider query (policyFor c) = inl error ->
  (forall message,
     carriesMessage error message ->
     snd (callTool provider "search" (Some a) w)
     = afterFailure w query (policyFor c) message)
  /\ (forall printed,
        error = MessageNotString printed ->
        callTool provider "search" (Some a) w
        = (inl (TypeError ToLowerCaseNotAFunction),
           afterFailure w query (policyFor c) printed))
  /\ (error = Nullish ->
      callTool provider "search" (Some a) w
      = (inl (TypeError MessageOfNullish), afterCall w query (policyFor c))).
Proof.
  intros Hq Hc Hp. rewrite (callTool_recognized _ _ _ _ _ Hq Hc), Hp.
  split; [|split].
  - intros message Hm. now rewrite (onError_carried _ _ _ Hm).
  - intros printed ->. now rewrite onError_other.
  - intros ->. now rewrite onError_nullish.
Qed.

Lemma callTool_failure_world_witness :
  (forall message,
     carriesMessage invalidKeyError message ->
     snd (callTool (failingProvider invalidKeyError) "search"
            (Some {| Args.query := Some "react hooks"; Args.type := None |}) emptyWorld)
     = afterFailure emptyWorld "react hooks" (policyFor code) message)
  /\ (forall printed,
        invalidKeyError = MessageNotString printed ->
        callTool (failingProvider invalidKeyError) "search"
          (Some {| Args.query := Some "react hooks"; Args.type := None |}) emptyWorld
        = (inl (TypeError ToLowerCaseNotAFunction),
           afterFailure emptyWorld "react hooks" (policyFor code) printed))
  /\ (invalidKeyError = Nullish ->
      callTool (failingProvider invalidKeyError) "search"
        (Some {| Args.query := Some "react hooks"; Args.type := None |}) emptyWorld
      = (inl (TypeError MessageOfNullish),
         afterCall emptyWorld "react hooks" (policyFor code))).
Proof.
  apply (callTool_failure_world (failingProvider invalidKeyError)
           {| Args.query := Some "react hooks"; Args.type := None |}
           "react hooks" code invalidKeyError emptyWorld); reflexivity.
Defined.

(** The three kinds of failure, run. *)
Example failure_world_message :
  callTool (failingProvider (ErrorObject "Error" "Rate limit reached")) "search"
    (Some hooksRequest) emptyWorld
  = (inr {| content := [textContent rateLimitText] |},
     afterFailure emptyWorld "react hooks" (policyFor docs) "Rate limit reached").
Proof. reflexivity. Qed.

Example failure_world_number :
  callTool (failingProvider (MessageNotString "429")) "search"
    (Some hooksRequest) emptyWorld
  = (inl (TypeError ToLowerCaseNotAFunction),
     afterFailure emptyWorld "react hooks" (policyFor docs) "429").
Proof. reflexivity. Qed.

Example failure_world_null :
  callTool (failingProvider Nullish) "search" (Some hooksRequest) emptyWorld
  = (inl (TypeError MessageOfNullish),
     afterCall emptyWorld "react hooks" (policyFor docs)).
Proof. reflexivity. Qed.

(** X18.  When the provider call of a [search] request resolves, the
    response is the one content item the formatter makes of the provider's
    value and the category; the call is logged and the error stream is left
    as it was. *)
Theorem callTool_success provider (a : Args.t) (query : string) (c : SearchCategory)
        (results : option SearchResponse) (w : World) :
  Args.query a = Some query -> typeOf (Args.type a) = tag c ->
  provider query (policyFor c) = inr results ->
  exists t : TextContent,
    processSearchResults results (tag c) (afterCall w query (policyFor c))
      = (inr t, afterCall w query (policyFor c))
    /\ callTool provider "search" (Some a) w
       = (inr {| content := [t] |}, afterCall w query (policyFor c)).
Proof.
  intros Hq Hc Hp. rewrite (callTool_recognized _ _ _ _ _ Hq Hc), Hp.
  destruct (processSearchResults_pure results (tag c)) as [t Ht].
  exists (textContent t). rewrite !Ht. split; reflexivity.
Qed.

Lemma callTool_success_witness :
  exists t : TextContent,
    processSearchResults (Some docsResponse) (tag docs)
      (afterCall emptyWorld "react useEffect" (policyFor docs))
      = (inr t, afterCall emptyWorld "react useEffect" (policyFor docs))
    /\ callTool (fun _ _ => inr (Some docsResponse)) "search"
         (Some {| Args.query := Some "react useEffect"; Args.type := Some "docs" |})
         emptyWorld
       = (inr {| content := [t] |}, afterCall emptyWorld "react useEffect" (policyFor docs)).
Proof.
  apply (callTool_success (fun _ _ => inr (Some docsResponse))
           {| Args.query := Some "react useEffect"; Args.type := Some "docs" |}
           "react useEffect" docs (Some docsResponse) emptyWorld); reflexivity.
Defined.
